(** * Fit Check: pose navigation, response handling and wardrobe selection

    A shallow embedding of the event handlers of the [Canvas] and
    [WardrobePanel] components and of the response handling of
    [services/geminiService.ts], followed by the properties of the
    outfit-composition specification that these functions decide.

    Conventions of the embedding.
    - A JavaScript [number] that is used as an array index or a length is an
      integer of [Z]; the result of [%] is a [JS.number], which adds [NaN]
      (remainder by a zero length).
    - A JavaScript string is a [string] whose characters are code units
      below 256; [undefined] is [None].
    - A callback prop ([onSelectPose], [onGarmentSelect], [setError]) is not
      run: a handler returns the list of the calls it makes, in order. *)

From Stdlib Require Import ZArith List String Ascii Bool Lia.
From Stdlib Require Import DecimalString.
From Stdlib Require DecimalZ.
Import ListNotations.

Open Scope string_scope.
Open Scope Z_scope.

(* ================================================================== *)
(** ** JavaScript primitives used by the handlers *)
(* ================================================================== *)

Module JS.

(** The value of an arithmetic expression: an integer, or [NaN]. *)
Inductive number : Type :=
| Num (z : Z)
| NaN.

(** [a.length]. *)
Definition length {A : Type} (a : list A) : Z := Z.of_nat (List.length a).

(** [a[i]] for an integer [i]: [undefined] outside [0 .. a.length - 1]. *)
Definition get {A : Type} (a : list A) (i : Z) : option A :=
  if i <? 0 then None else nth_error a (Z.to_nat i).

(** [a[n]] where [n] is the value of an expression: [a[NaN]] is [undefined]. *)
Definition get_num {A : Type} (a : list A) (n : number) : option A :=
  match n with
  | Num i => get a i
  | NaN => None
  end.

(** [x % y] on integers: the remainder has the sign of the dividend, and
    the remainder by zero is [NaN]. *)
Definition rem (x y : Z) : number :=
  if y =? 0 then NaN else Num (Z.rem x y).

Fixpoint indexOf_from (a : list string) (x : string) (k : Z) : Z :=
  match a with
  | [] => -1
  | y :: a' => if String.eqb y x then k else indexOf_from a' x (k + 1)
  end.

(** [a.indexOf(x)] on an array of strings: the first index holding [x], or
    [-1]. The searched value may be [undefined], which no element equals. *)
Definition indexOf (a : list string) (x : option string) : Z :=
  match x with
  | Some s => indexOf_from a s 0
  | None => -1
  end.

(** [a.includes(x)] on an array of strings. *)
Definition includes (a : list string) (x : string) : bool :=
  existsb (fun y => String.eqb y x) a.

(** [s.startsWith(p)]. *)
Definition startsWith (s p : string) : bool := String.prefix p s.

(** Truthiness of a string that may be [undefined]: the empty string and
    [undefined] are falsy. *)
Definition truthy (s : option string) : bool :=
  match s with
  | Some (String _ _) => true
  | _ => false
  end.

(** A value interpolated in a template literal. *)
Definition interpolate (s : option string) : string :=
  match s with
  | Some v => v
  | None => "undefined"
  end.

(** White space and line terminators below 256: TAB, LF, VT, FF, CR, SP and
    NBSP. *)
Definition isWhiteSpace (c : ascii) : bool :=
  let n := nat_of_ascii c in
  ((9 <=? n) && (n <=? 13))%nat || (n =? 32)%nat || (n =? 160)%nat.

(** Line terminators below 256: LF and CR. The dot of a regular expression
    matches every other character. *)
Definition isLineTerminator (c : ascii) : bool :=
  let n := nat_of_ascii c in
  (n =? 10)%nat || (n =? 13)%nat.

Fixpoint trimStart (s : string) : string :=
  match s with
  | EmptyString => EmptyString
  | String c s' => if isWhiteSpace c then trimStart s' else s
  end.

Fixpoint trimEnd (s : string) : string :=
  match s with
  | EmptyString => EmptyString
  | String c s' =>
      match trimEnd s' with
      | EmptyString => if isWhiteSpace c then EmptyString else String c EmptyString
      | t => String c t
      end
  end.

(** [s.trim()]. *)
Definition trim (s : string) : string := trimEnd (trimStart s).

(** [s.split(sep)] for a one-character separator. *)
Fixpoint split (sep : ascii) (s : string) : list string :=
  match s with
  | EmptyString => [EmptyString]
  | String c s' =>
      if Ascii.eqb c sep then EmptyString :: split sep s'
      else match split sep s' with
           | h :: t => String c h :: t
           | [] => [String c EmptyString]
           end
  end.

(** A value thrown by a function or rejecting a promise: [new Error(message)],
    or a value of a collaborator that the program only passes on. *)
Inductive Exn : Type :=
| Error (message : string)
| Foreign (what : string).

(** How a call ends: it returns (a promise resolves), or it throws (a
    promise rejects). *)
Inductive Outcome (A : Type) : Type :=
| Returned (a : A)
| Thrown (e : Exn).

Arguments Returned {A} a.
Arguments Thrown {A} e.

(** The fields of a DOM [File] that the program reads. *)
Record File : Type := {
  name : string;
  type : string
}.

End JS.

(* ================================================================== *)
(** ** Canvas: previous / next pose *)
(* ================================================================== *)

Module Canvas.

(** The props the two pose handlers read. *)
Record CanvasProps : Type := {
  isLoading : bool;
  poseInstructions : list string;
  currentPoseIndex : Z;
  availablePoseKeys : list string
}.

(** A call of the [onSelectPose] prop. *)
Inductive Call : Type :=
| onSelectPose (index : JS.number).

Definition handlePreviousPose (p : CanvasProps) : list Call :=
  if isLoading p || (JS.length (availablePoseKeys p) <=? 1) then []
  else
    let currentPoseInstruction := JS.get (poseInstructions p) (currentPoseIndex p) in
    let currentIndexInAvailable := JS.indexOf (availablePoseKeys p) currentPoseInstruction in
    if currentIndexInAvailable =? -1 then
      [onSelectPose (JS.rem (currentPoseIndex p - 1 + JS.length (poseInstructions p))
                            (JS.length (poseInstructions p)))]
    else
      let prevIndexInAvailable :=
        JS.rem (currentIndexInAvailable - 1 + JS.length (availablePoseKeys p))
               (JS.length (availablePoseKeys p)) in
      let prevPoseInstruction := JS.get_num (availablePoseKeys p) prevIndexInAvailable in
      let newGlobalPoseIndex := JS.indexOf (poseInstructions p) prevPoseInstruction in
      if negb (newGlobalPoseIndex =? -1) then [onSelectPose (JS.Num newGlobalPoseIndex)]
      else [].

Definition handleNextPose (p : CanvasProps) : list Call :=
  if isLoading p then []
  else
    let currentPoseInstruction := JS.get (poseInstructions p) (currentPoseIndex p) in
    let currentIndexInAvailable := JS.indexOf (availablePoseKeys p) currentPoseInstruction in
    if (currentIndexInAvailable =? -1) || (JS.length (availablePoseKeys p) =? 0) then
      [onSelectPose (JS.rem (currentPoseIndex p + 1) (JS.length (poseInstructions p)))]
    else
      let nextIndexInAvailable := currentIndexInAvailable + 1 in
      if nextIndexInAvailable <? JS.length (availablePoseKeys p) then
        let nextPoseInstruction := JS.get (availablePoseKeys p) nextIndexInAvailable in
        let newGlobalPoseIndex := JS.indexOf (poseInstructions p) nextPoseInstruction in
        if negb (newGlobalPoseIndex =? -1) then [onSelectPose (JS.Num newGlobalPoseIndex)]
        else []
      else
        let newGlobalPoseIndex :=
          JS.rem (currentPoseIndex p + 1) (JS.length (poseInstructions p)) in
        [onSelectPose newGlobalPoseIndex].

(** The pose at a selected index, when the index is one of the catalog. *)
Definition poseAt (p : CanvasProps) (n : JS.number) : option string :=
  JS.get_num (poseInstructions p) n.

(** [available] is a subsequence of [catalog]: it keeps some of the
    catalog's entries, in catalog order. *)
Inductive Subseq : list string -> list string -> Prop :=
| Subseq_nil : forall catalog, Subseq [] catalog
| Subseq_keep : forall x available catalog,
    Subseq available catalog -> Subseq (x :: available) (x :: catalog)
| Subseq_skip : forall x available catalog,
    Subseq available catalog -> Subseq available (x :: catalog).

End Canvas.

(* ================================================================== *)
(** ** services/geminiService.ts *)
(* ================================================================== *)

Module GeminiService.

Import JS.

(** The parts of the SDK's types that the service reads or builds. Every
    field is optional in the SDK's declarations. *)
Record Blob : Type := {
  mimeType : option string;
  data : option string
}.

Record Part : Type := {
  inlineData : option Blob;
  part_text : option string
}.

Record Content : Type := {
  parts : option (list Part)
}.

Record Candidate : Type := {
  content : option Content;
  finishReason : option string
}.

(** [text] is the value of the response's [text] accessor. *)
Record GenerateContentResponse : Type := {
  candidates : option (list Candidate);
  text : option string
}.

(** The argument of [ai.models.generateContent]: [{ model, contents: { parts } }]. *)
Record GenerateContentParameters : Type := {
  model_name : string;
  contents : list Part
}.

(** [{ inlineData: { mimeType, data } }] *)
Definition inlineDataPart (mime d : string) : Part :=
  {| inlineData := Some {| mimeType := Some mime; data := Some d |}; part_text := None |}.

(** [{ text: t }] *)
Definition textPart (t : string) : Part :=
  {| inlineData := None; part_text := Some t |}.

(** *** dataUrlToParts *)

(** [(.*?);] matched at the start of [s]: the shortest run of characters other
    than line terminators that a semicolon follows. *)
Fixpoint lazyUntilSemicolon (s : string) : option string :=
  match s with
  | EmptyString => None
  | String c s' =>
      if Ascii.eqb c ";" then Some EmptyString
      else if isLineTerminator c then None
      else option_map (String c) (lazyUntilSemicolon s')
  end.

(** [s.match(/:(.*?);/)]: the capture group of the leftmost match, if any. *)
Fixpoint matchMime (s : string) : option string :=
  match s with
  | EmptyString => None
  | String c s' =>
      if Ascii.eqb c ":" then
        match lazyUntilSemicolon s' with
        | Some g => Some g
        | None => matchMime s'
        end
      else matchMime s'
  end.

Definition dataUrlToParts (dataUrl : string) : Outcome (string * string) :=
  let arr := split "," dataUrl in
  if JS.length arr <? 2 then Thrown (Error "Invalid data URL")
  else
    let mimeMatch := matchMime (nth 0 arr EmptyString) in
    match mimeMatch with
    | Some (String c m) => Returned (String c m, nth 1 arr EmptyString)
    | _ => Thrown (Error "Could not parse MIME type from data URL")
    end.

Definition dataUrlToPart (dataUrl : string) : Outcome Part :=
  match dataUrlToParts dataUrl with
  | Returned (mime, d) => Returned (inlineDataPart mime d)
  | Thrown e => Thrown e
  end.

(** *** handleApiResponse *)

(** The inner loop: the first part with [inlineData] ends the function with
    its data URL. *)
Fixpoint scanParts (ps : list Part) : option string :=
  match ps with
  | [] => None
  | part :: rest =>
      match inlineData part with
      | Some b =>
          Some ("data:" ++ interpolate (mimeType b) ++ ";base64," ++ interpolate (data b))
      | None => scanParts rest
      end
  end.

(** [candidate.content?.parts] *)
Definition candidateParts (candidate : Candidate) : option (list Part) :=
  match content candidate with
  | Some c => parts c
  | None => None
  end.

(** The outer loop over the candidates. *)
Fixpoint scanCandidates (cs : list Candidate) : option string :=
  match cs with
  | [] => None
  | candidate :: rest =>
      match candidateParts candidate with
      | Some ps =>
          match scanParts ps with
          | Some dataUrl => Some dataUrl
          | None => scanCandidates rest
          end
      | None => scanCandidates rest
      end
  end.

(** The double quote character. *)
Definition dquote : string := String (ascii_of_nat 34) EmptyString.

Definition noCandidatesMessage : string :=
  "No candidates returned from the model. This may be due to safety filters.".

Definition noImageMessage : string :=
  "No image was returned. Please try a different prompt or image.".

Definition textInsteadOfImage (textFeedback : string) : string :=
  "The model responded with text instead of an image: " ++ dquote ++ textFeedback ++ dquote.

Definition handleApiResponse (response : GenerateContentResponse) : Outcome string :=
  match candidates response with
  | None | Some [] => Thrown (Error noCandidatesMessage)
  | Some ((first :: _) as cs) =>
      match scanCandidates cs with
      | Some dataUrl => Returned dataUrl
      | None =>
          let finishReason := finishReason first in
          if truthy finishReason && negb (String.eqb (interpolate finishReason) "STOP") then
            Thrown (Error ("Generation stopped unexpectedly. Reason: "
                           ++ interpolate finishReason ++ "."))
          else
            let textFeedback := option_map trim (text response) in
            let errorMessage :=
              if truthy textFeedback then textInsteadOfImage (interpolate textFeedback)
              else noImageMessage in
            Thrown (Error errorMessage)
      end
  end.

(** *** The calls to the collaborator *)

Definition model : string := "gemini-2.5-flash-image".

Definition tryOnPrompt : string :=
"### MISSION: 100% PRECISION VIRTUAL TRY-ON
You are an advanced cloth-to-person transfer system. Your objective is absolute structural and color fidelity to the 'garment image' and the 'model image'.

### STEP 1: GARMENT SEGMENTATION & SELECTIVE TARGETING
- Identify the garment(s) in the 'garment image'. 
- **STRICT SELECTIVITY:** Only replace the pixels of the corresponding category on the model.
- **ISOLATION RULE:** If you are adding a JACKET/TOP, you MUST NOT change the model's pants, shoes, or accessories (hat/sunglasses). If the model is wearing olive joggers, they MUST remain olive joggers in the final image.
- **ISOLATION RULE:** If you are adding PANTS, you MUST NOT change the model's shirt, shoes, or accessories.

### STEP 2: STRUCTURAL FIDELITY (REPLACE, DO NOT RE-COLOR)
- **DISREGARD ORIGINAL CUT:** Completely ignore the cut of the person's original clothes. If the model is wearing joggers with elastic cuffs, but the 'garment image' is a straight-leg slack, the final output MUST be a straight-leg slack.
- **NO HALLUCINATIONS:** Strictly prohibited from adding elastic cuffs, drawstrings, or extra pockets that are not in the product photo. The leg opening and hem must match the 'garment image' 100%.

### STEP 3: COLOR & TEXTURE CALIBRATION
- **COLOR PRECISION:** Sample the exact HEX color from the 'garment image'. The output garment must match this specific hue perfectly.
- **LIGHTING NEUTRALITY:** Do not allow the environment lighting in the 'model image' to shift the color. The fabric must look true-to-life as seen in a professional product shot.
- **FABRIC FIDELITY:** Replicate the texture (twill, stretch, knit) exactly as seen in the garment image.

### STEP 4: IDENTITY & SCENE PRESERVATION
- The person's face, hair, skin, sunglasses, hat, and background MUST remain a pixel-perfect match to the 'model image'.

Return ONLY the high-resolution generated image. NO TEXT.".

Definition modelPrompt : string :=
"You are an expert fashion photographer AI. Transform the person in this image into a full-body fashion model photo for an e-commerce catalog. The background must be a clean, neutral studio backdrop (light gray, #f0f0f0). Preserve the person's identity, unique facial features, body proportions, and current accessories (hats, glasses, sunglasses) with 100% fidelity. Do not change their hair, skin tone, or existing clothing style in this step. The output must be photorealistic and extremely sharp. Return ONLY the final image.".

(** The prompt of a pose variation, a template literal around the pose
    instruction. *)
Definition posePrompt (poseInstruction : string) : string :=
"You are an expert fashion photographer AI. Regenerate this exact person in this exact outfit from a new perspective: " ++ dquote ++ poseInstruction ++ dquote ++ ". 
    
**RULES:**
1. Keep the clothing structure (e.g., straight-leg cut), fabric texture, and specific colors 100% identical.
2. Do not revert slacks back to joggers.
3. Keep the person's identity, face, and accessories (hat/sunglasses) identical.
4. Return ONLY the final image.".

(** An asynchronous function of the service: the requests it sends to the
    collaborator, in order, and how it settles. *)
Definition Async (A : Type) : Type := (list GenerateContentParameters * Outcome A)%type.

Definition ret {A : Type} (a : A) : Async A := ([], Returned a).

Definition lift {A : Type} (o : Outcome A) : Async A := ([], o).

Definition bind {A B : Type} (m : Async A) (k : A -> Async B) : Async B :=
  match m with
  | (sent, Returned a) => let (sent', r) := k a in ((sent ++ sent')%list, r)
  | (sent, Thrown e) => (sent, Thrown e)
  end.

#[local] Notation "x <- m ;; k" := (bind m (fun x => k))
  (at level 61, m at next level, right associativity).

Section Collaborators.

(** What [FileReader.readAsDataURL] yields for a file: the data URL passed to
    [onload], or the value passed to [onerror]. *)
Variable readAsDataURL : File -> Outcome string.

(** The collaborator: what [ai.models.generateContent] settles to. *)
Variable generateContent : GenerateContentParameters -> Outcome GenerateContentResponse.

Definition callGenerateContent (req : GenerateContentParameters)
  : Async GenerateContentResponse :=
  ([req], generateContent req).

Definition fileToPart (file : File) : Async Part :=
  dataUrl <- lift (readAsDataURL file) ;;
  lift (dataUrlToPart dataUrl).

Definition generateVirtualTryOnImage (modelImageUrl : string) (garmentImage : File)
  : Async string :=
  modelImagePart <- lift (dataUrlToPart modelImageUrl) ;;
  garmentImagePart <- fileToPart garmentImage ;;
  response <- callGenerateContent
                {| model_name := model;
                   contents := [modelImagePart; garmentImagePart; textPart tryOnPrompt] |} ;;
  lift (handleApiResponse response).

Definition generateModelImage (userImage : File) : Async string :=
  userImagePart <- fileToPart userImage ;;
  response <- callGenerateContent
                {| model_name := model;
                   contents := [userImagePart; textPart modelPrompt] |} ;;
  lift (handleApiResponse response).

Definition generatePoseVariation (tryOnImageUrl : string) (poseInstruction : string)
  : Async string :=
  tryOnImagePart <- lift (dataUrlToPart tryOnImageUrl) ;;
  response <- callGenerateContent
                {| model_name := model;
                   contents := [tryOnImagePart; textPart (posePrompt poseInstruction)] |} ;;
  lift (handleApiResponse response).

End Collaborators.

End GeminiService.

(* ================================================================== *)
(** ** WardrobePanel: garment selection *)
(* ================================================================== *)

Module WardrobePanel.

Import JS.

Record WardrobeItem : Type := {
  id : string;
  name : string;
  url : string
}.

(** The props the two handlers read. *)
Record WardrobePanelProps : Type := {
  activeGarmentIds : list string;
  isLoading : bool
}.

(** The change event of the file input: [e.target.files] is a file list or
    [null]. *)
Record ChangeEvent : Type := {
  files : option (list File)
}.

(** A call of the [onGarmentSelect] prop or of the [setError] state setter. *)
Inductive Call : Type :=
| setError (message : option string)
| onGarmentSelect (garmentFile : File) (garmentInfo : WardrobeItem).

Section Handlers.

(** How the promise of [urlToFile(url, filename)] settles. *)
Variable urlToFile : string -> string -> Outcome File.

(** Whether the [onGarmentSelect] prop throws on these arguments. *)
Variable onGarmentSelectThrows : File -> WardrobeItem -> bool.

(** [Date.now()] and [URL.createObjectURL]. *)
Variable now : Z.
Variable createObjectURL : File -> string.

Variable props : WardrobePanelProps.

Definition handleGarmentClick (item : WardrobeItem) : list Call :=
  if isLoading props || includes (activeGarmentIds props) (id item) then []
  else
    setError None ::
    match urlToFile (url item) (name item) with
    | Returned file =>
        onGarmentSelect file item ::
        (if onGarmentSelectThrows file item
         then [setError (Some "Failed to load item. This might be a CORS issue.")]
         else [])
    | Thrown _ => [setError (Some "Failed to load item. This might be a CORS issue.")]
    end.

Definition handleFileChange (e : ChangeEvent) : list Call :=
  match files e with
  | Some (file :: _) =>
      if negb (startsWith (type file) "image/") then
        [setError (Some "Please select an image file.")]
      else
        let customGarmentInfo :=
          {| id := "custom-" ++ NilZero.string_of_int (Z.to_int now);
             name := JS.name file;
             url := createObjectURL file |} in
        [onGarmentSelect file customGarmentInfo]
  | _ => []
  end.

End Handlers.

End WardrobePanel.

(* ================================================================== *)
(** ** Facts about the primitives *)
(* ================================================================== *)

Module JSFacts.

Import JS.

Lemma length_nonneg {A : Type} (a : list A) : 0 <= JS.length a.
Proof. unfold JS.length. lia. Qed.

Lemma get_Some_range {A : Type} (a : list A) (i : Z) (x : A) :
  get a i = Some x -> 0 <= i < JS.length a.
Proof.
  unfold get, JS.length. destruct (Z.ltb_spec i 0) as [Hneg | Hpos]; [discriminate |].
  intros Hnth.
  assert (Hlt : (Z.to_nat i < List.length a)%nat).
  { apply nth_error_Some. rewrite Hnth. discriminate. }
  lia.
Qed.

Lemma get_in_range {A : Type} (a : list A) (i : Z) :
  0 <= i < JS.length a -> exists x : A, get a i = Some x.
Proof.
  unfold get, JS.length. intros Hi.
  destruct (Z.ltb_spec i 0) as [Hneg | _]; [lia |].
  destruct (nth_error a (Z.to_nat i)) as [x |] eqn:Hnth; [now exists x |].
  apply nth_error_None in Hnth. lia.
Qed.

Lemma get_Some_In {A : Type} (a : list A) (i : Z) (x : A) :
  get a i = Some x -> In x a.
Proof.
  unfold get. destruct (i <? 0); [discriminate |]. apply nth_error_In.
Qed.

(** The scan either fails, and then the value is nowhere in the array, or
    stops at an index that holds the value. *)
Lemma indexOf_from_cases (a : list string) (x : string) :
  forall k : Z,
    0 <= k ->
    (indexOf_from a x k = -1 /\ ~ In x a) \/
    (k <= indexOf_from a x k < k + JS.length a /\
     nth_error a (Z.to_nat (indexOf_from a x k - k)) = Some x).
Proof.
  unfold JS.length.
  induction a as [| y a' IH]; intros k Hk; simpl.
  - left. split; [reflexivity | tauto].
  - destruct (String.eqb_spec y x) as [Heq | Hneq].
    + right. split; [lia |]. rewrite Z.sub_diag. simpl. now subst.
    + destruct (IH (k + 1) ltac:(lia)) as [[Hnone Hnot] | [Hrange Hnth]].
      * left. split; [exact Hnone |]. intros [Hyx | Hin]; [now apply Hneq | now apply Hnot].
      * right. split; [lia |].
        replace (Z.to_nat (indexOf_from a' x (k + 1) - k))
          with (S (Z.to_nat (indexOf_from a' x (k + 1) - (k + 1)))) by lia.
        exact Hnth.
Qed.

Lemma indexOf_absent (a : list string) (x : string) :
  indexOf a (Some x) = -1 <-> ~ In x a.
Proof.
  simpl. destruct (indexOf_from_cases a x 0 ltac:(lia)) as [[Hnone Hnot] | [Hrange Hnth]].
  - tauto.
  - split; [lia |]. intros Hnot. exfalso. apply Hnot. eapply nth_error_In. exact Hnth.
Qed.

Lemma indexOf_present (a : list string) (x : string) :
  In x a ->
  0 <= indexOf a (Some x) < JS.length a /\ get a (indexOf a (Some x)) = Some x.
Proof.
  intros Hin. simpl.
  destruct (indexOf_from_cases a x 0 ltac:(lia)) as [[Hnone Hnot] | [Hrange Hnth]].
  - contradiction.
  - split; [lia |]. unfold get.
    destruct (Z.ltb_spec (indexOf_from a x 0) 0) as [Hneg | _]; [lia |].
    now rewrite Z.sub_0_r in Hnth.
Qed.

Lemma indexOf_undefined (a : list string) : indexOf a None = -1.
Proof. reflexivity. Qed.

(** On a non-negative dividend and a positive divisor, [%] is the
    mathematical [mod]. *)
Lemma rem_nonneg (x y : Z) : 0 <= x -> 0 < y -> rem x y = Num (x mod y).
Proof.
  intros Hx Hy. unfold rem.
  destruct (Z.eqb_spec y 0) as [H0 | _]; [lia |].
  now rewrite Z.rem_mod_nonneg by lia.
Qed.

End JSFacts.

(* ================================================================== *)
(** ** Pose navigation *)
(* ================================================================== *)

Module CanvasProofs.

Import JS JSFacts Canvas.

Lemma Subseq_incl (available catalog : list string) :
  Subseq available catalog -> forall x, In x available -> In x catalog.
Proof.
  induction 1 as [catalog | y available catalog _ IH | y available catalog _ IH];
    intros x Hin.
  - destruct Hin.
  - destruct Hin as [-> | Hin]; [now left | right; now apply IH].
  - right. now apply IH.
Qed.

(** What [handlePreviousPose] does once its guard is passed and the current
    pose is not among the available ones. *)
Lemma handlePreviousPose_unavailable (p : CanvasProps) :
  isLoading p = false ->
  1 < JS.length (availablePoseKeys p) ->
  indexOf (availablePoseKeys p) (get (poseInstructions p) (currentPoseIndex p)) = -1 ->
  handlePreviousPose p =
  [onSelectPose (rem (currentPoseIndex p - 1 + JS.length (poseInstructions p))
                     (JS.length (poseInstructions p)))].
Proof.
  intros Hload Hlen Hidx. unfold handlePreviousPose.
  rewrite Hload, Hidx. simpl.
  destruct (Z.leb_spec (JS.length (availablePoseKeys p)) 1) as [Hle | _]; [lia |].
  reflexivity.
Qed.

(** What [handlePreviousPose] does once its guard is passed and the current
    pose is the available pose number [pos]. *)
Lemma handlePreviousPose_available (p : CanvasProps) (pos : Z) :
  isLoading p = false ->
  1 < JS.length (availablePoseKeys p) ->
  indexOf (availablePoseKeys p) (get (poseInstructions p) (currentPoseIndex p)) = pos ->
  0 <= pos < JS.length (availablePoseKeys p) ->
  handlePreviousPose p =
  let j := indexOf (poseInstructions p)
             (get (availablePoseKeys p) ((pos - 1) mod JS.length (availablePoseKeys p))) in
  if negb (j =? -1) then [onSelectPose (Num j)] else [].
Proof.
  intros Hload Hlen Hidx Hpos. unfold handlePreviousPose.
  rewrite Hload, Hidx. simpl orb.
  destruct (Z.leb_spec (JS.length (availablePoseKeys p)) 1) as [Hle | _]; [lia |].
  destruct (Z.eqb_spec pos (-1)) as [Hm | _]; [lia |].
  rewrite rem_nonneg by lia. simpl get_num.
  replace (pos - 1 + JS.length (availablePoseKeys p))
    with (pos - 1 + 1 * JS.length (availablePoseKeys p)) by lia.
  rewrite Z.mod_add by lia. reflexivity.
Qed.

(** The catalog and the props of the literal scenario of the specification:
    catalog [A, B, C, D], of which [available] are cached. *)
Definition catalogABCD : list string := ["A"; "B"; "C"; "D"].

Definition scenario (available : list string) (current : Z) : CanvasProps :=
  {| isLoading := false;
     poseInstructions := catalogABCD;
     currentPoseIndex := current;
     availablePoseKeys := available |}.

(** C1. Next does not wrap within the available poses. When the control is
    live (not loading) and the current pose, at index [i] of the catalog, is
    found in the available list at its last position, [handleNextPose] calls
    [onSelectPose] exactly once, with [(i + 1) mod |catalog|]: the successor in
    the full catalog, whether or not that pose is available. (For an empty
    available list [indexOf] is [-1 = length - 1] and the same call is made.) *)
Theorem handleNextPose_past_last_available :
  forall (p : CanvasProps) (c : string),
    isLoading p = false ->
    get (poseInstructions p) (currentPoseIndex p) = Some c ->
    indexOf (availablePoseKeys p) (Some c) = JS.length (availablePoseKeys p) - 1 ->
    handleNextPose p =
    [onSelectPose (Num ((currentPoseIndex p + 1) mod JS.length (poseInstructions p)))].
Proof.
  intros p c Hload Hcur Hlast.
  pose proof (get_Some_range _ _ _ Hcur) as Hi.
  unfold handleNextPose. rewrite Hload, Hcur, Hlast.
  rewrite rem_nonneg by lia.
  destruct ((JS.length (availablePoseKeys p) - 1 =? -1)
            || (JS.length (availablePoseKeys p) =? 0)); [reflexivity |].
  destruct (Z.ltb_spec (JS.length (availablePoseKeys p) - 1 + 1)
                       (JS.length (availablePoseKeys p))) as [Hlt | _]; [lia |].
  reflexivity.
Qed.

(** The scenario of the specification: catalog [A, B, C, D], available
    [A, C], current pose C. Next selects index 3, which is D; wrapping to
    the first available pose, A, would have selected index 0. *)
Lemma handleNextPose_past_last_available_witness :
  handleNextPose (scenario ["A"; "C"] 2) = [onSelectPose (Num 3)] /\
  poseAt (scenario ["A"; "C"] 2) (Num 3) = Some "D" /\
  indexOf (poseInstructions (scenario ["A"; "C"] 2))
          (get (availablePoseKeys (scenario ["A"; "C"] 2)) 0) = 0.
Proof.
  split.
  - exact (handleNextPose_past_last_available (scenario ["A"; "C"] 2) "C"
             eq_refl eq_refl eq_refl).
  - split; reflexivity.
Defined.

(** C2, as written, fails where fewer than two poses are available: with
    catalog [A, B, C, D], available [A] and current pose B (not available),
    Previous makes no call at all, where the claim has it select
    [(1 - 1 + 4) mod 4 = 0]. *)
Lemma handlePreviousPose_one_available_no_call :
  Subseq (availablePoseKeys (scenario ["A"] 1)) (poseInstructions (scenario ["A"] 1)) /\
  get (poseInstructions (scenario ["A"] 1)) (currentPoseIndex (scenario ["A"] 1)) = Some "B" /\
  ~ In "B" (availablePoseKeys (scenario ["A"] 1)) /\
  handlePreviousPose (scenario ["A"] 1) = [] /\
  handlePreviousPose (scenario ["A"] 1) <> [onSelectPose (Num ((1 - 1 + 4) mod 4))].
Proof.
  repeat split.
  - apply Subseq_keep, Subseq_nil.
  - intros [H | []]. discriminate H.
  - discriminate.
Qed.

(** C2 (amended). When the control is live (not loading) and at least two
    poses are available, with [c] the current pose, at index [i] of the
    catalog: if [c] is not available, [handlePreviousPose] selects
    [(i - 1 + |catalog|) mod |catalog|] in the full catalog; if [c] is the
    available pose number [pos], it selects the catalog index of
    [available[(pos - 1) mod |available|]]. *)
Theorem handlePreviousPose_navigation :
  forall (p : CanvasProps) (c : string),
    isLoading p = false ->
    2 <= JS.length (availablePoseKeys p) ->
    Subseq (availablePoseKeys p) (poseInstructions p) ->
    get (poseInstructions p) (currentPoseIndex p) = Some c ->
    (~ In c (availablePoseKeys p) ->
     handlePreviousPose p =
     [onSelectPose (Num ((currentPoseIndex p - 1 + JS.length (poseInstructions p))
                         mod JS.length (poseInstructions p)))]) /\
    (forall pos : Z,
       indexOf (availablePoseKeys p) (Some c) = pos ->
       pos <> -1 ->
       exists (q : string) (j : Z),
         get (availablePoseKeys p) ((pos - 1) mod JS.length (availablePoseKeys p)) = Some q /\
         indexOf (poseInstructions p) (Some q) = j /\
         get (poseInstructions p) j = Some q /\
         handlePreviousPose p = [onSelectPose (Num j)]).
Proof.
  intros p c Hload Hlen Hsub Hcur.
  pose proof (get_Some_range _ _ _ Hcur) as Hi.
  split.
  - intros Hnot.
    rewrite handlePreviousPose_unavailable; try assumption; try lia.
    + now rewrite rem_nonneg by lia.
    + rewrite Hcur. now apply indexOf_absent.
  - intros pos Hpos Hfound.
    assert (Hin : In c (availablePoseKeys p)).
    { destruct (in_dec string_dec c (availablePoseKeys p)) as [Hin | Hout]; [exact Hin |].
      apply indexOf_absent in Hout. congruence. }
    destruct (indexOf_present _ _ Hin) as [Hrange _]. rewrite Hpos in Hrange.
    assert (Hprev : 0 <= (pos - 1) mod JS.length (availablePoseKeys p)
                    < JS.length (availablePoseKeys p))
      by (apply Z.mod_pos_bound; lia).
    destruct (get_in_range _ _ Hprev) as [q Hq].
    assert (Hqin : In q (poseInstructions p)).
    { apply (Subseq_incl _ _ Hsub). eapply get_Some_In. exact Hq. }
    destruct (indexOf_present _ _ Hqin) as [Hjrange Hjget].
    exists q, (indexOf (poseInstructions p) (Some q)).
    repeat split; try assumption.
    rewrite (handlePreviousPose_available p pos); try assumption; try lia.
    + rewrite Hq. cbv zeta.
      destruct (Z.eqb_spec (indexOf (poseInstructions p) (Some q)) (-1)) as [Hm | _]; [lia |].
      reflexivity.
    + now rewrite Hcur.
Qed.

(** Previous in the scenario of the specification: catalog [A, B, C, D],
    available [A, C]. From C (available) it selects A; from D (not available)
    it selects index 2 of the full catalog. *)
Lemma handlePreviousPose_navigation_witness :
  handlePreviousPose (scenario ["A"; "C"] 3) = [onSelectPose (Num 2)] /\
  exists (q : string) (j : Z),
    get (availablePoseKeys (scenario ["A"; "C"] 2)) ((1 - 1) mod 2) = Some q /\
    indexOf (poseInstructions (scenario ["A"; "C"] 2)) (Some q) = j /\
    get (poseInstructions (scenario ["A"; "C"] 2)) j = Some q /\
    handlePreviousPose (scenario ["A"; "C"] 2) = [onSelectPose (Num j)].
Proof.
  assert (Hsub : Subseq ["A"; "C"] catalogABCD).
  { apply Subseq_keep, Subseq_skip, Subseq_keep, Subseq_nil. }
  split.
  - refine (proj1 (handlePreviousPose_navigation (scenario ["A"; "C"] 3) "D"
                     eq_refl _ Hsub eq_refl) _).
    + discriminate.
    + intros [H | [H | []]]; discriminate H.
  - refine (proj2 (handlePreviousPose_navigation (scenario ["A"; "C"] 2) "C"
                     eq_refl _ Hsub eq_refl) 1 eq_refl _); discriminate.
Defined.

(** C3, as written, fails when the current pose is not available: with
    catalog [A, B, C, D], available [A, B] and current pose D, Previous
    selects index 2, the pose C, which is not available. *)
Lemma handlePreviousPose_targets_uncached :
  Subseq (availablePoseKeys (scenario ["A"; "B"] 3)) (poseInstructions (scenario ["A"; "B"] 3)) /\
  handlePreviousPose (scenario ["A"; "B"] 3) = [onSelectPose (Num 2)] /\
  poseAt (scenario ["A"; "B"] 3) (Num 2) = Some "C" /\
  ~ In "C" (availablePoseKeys (scenario ["A"; "B"] 3)).
Proof.
  repeat split.
  - apply Subseq_keep, Subseq_keep, Subseq_nil.
  - intros [H | [H | []]]; discriminate H.
Qed.

(** C3 (amended). When the current pose is available, every index that
    [handlePreviousPose] passes to [onSelectPose] is the index of a pose of
    the catalog that is available. *)
Theorem handlePreviousPose_from_cached_stays_cached :
  forall (p : CanvasProps) (c : string) (n : number),
    get (poseInstructions p) (currentPoseIndex p) = Some c ->
    In c (availablePoseKeys p) ->
    In (onSelectPose n) (handlePreviousPose p) ->
    exists q : string, poseAt p n = Some q /\ In q (availablePoseKeys p).
Proof.
  intros p c n Hcur Hin Hcall.
  destruct (indexOf_present _ _ Hin) as [Hrange _].
  unfold handlePreviousPose in Hcall. rewrite Hcur in Hcall.
  destruct (isLoading p || (JS.length (availablePoseKeys p) <=? 1)) eqn:Hguard;
    [destruct Hcall |].
  apply orb_false_iff in Hguard. destruct Hguard as [_ Hlen].
  apply Z.leb_gt in Hlen.
  destruct (Z.eqb_spec (indexOf (availablePoseKeys p) (Some c)) (-1)) as [Hm | _]; [lia |].
  rewrite rem_nonneg in Hcall by lia. simpl get_num in Hcall.
  destruct (get (availablePoseKeys p) _) as [q |] eqn:Hq.
  - destruct (Z.eqb_spec (indexOf (poseInstructions p) (Some q)) (-1)) as [Hm | Hfound];
      simpl in Hcall; [destruct Hcall |].
    destruct Hcall as [Heq | []]. injection Heq as <-.
    exists q. split.
    + apply indexOf_present.
      destruct (in_dec string_dec q (poseInstructions p)) as [Hqin | Hout]; [exact Hqin |].
      apply indexOf_absent in Hout. contradiction.
    + eapply get_Some_In. exact Hq.
  - simpl in Hcall. destruct Hcall.
Qed.

Lemma handlePreviousPose_from_cached_stays_cached_witness :
  exists q : string,
    poseAt (scenario ["A"; "C"] 2) (Num 0) = Some q /\
    In q (availablePoseKeys (scenario ["A"; "C"] 2)).
Proof.
  apply (handlePreviousPose_from_cached_stays_cached (scenario ["A"; "C"] 2) "C" (Num 0)).
  - reflexivity.
  - right. left. reflexivity.
  - left. reflexivity.
Defined.

(** C8. While loading, or with at most one available pose,
    [handlePreviousPose] makes no call of [onSelectPose], whatever the
    catalog and the current index; this includes a current pose that is not
    available. *)
Theorem handlePreviousPose_guard :
  forall p : CanvasProps,
    isLoading p = true \/ JS.length (availablePoseKeys p) <= 1 ->
    handlePreviousPose p = [].
Proof.
  intros p [Hload | Hlen]; unfold handlePreviousPose.
  - now rewrite Hload.
  - apply Z.leb_le in Hlen. rewrite Hlen. now rewrite orb_true_r.
Qed.

Lemma handlePreviousPose_guard_witness :
  handlePreviousPose (scenario ["A"] 1) = [] /\
  handlePreviousPose
    {| isLoading := true; poseInstructions := catalogABCD;
       currentPoseIndex := 2; availablePoseKeys := ["A"; "C"] |} = [].
Proof.
  split.
  - apply handlePreviousPose_guard. right. unfold JS.length. simpl. lia.
  - apply handlePreviousPose_guard. left. reflexivity.
Defined.

End CanvasProofs.

(* ================================================================== *)
(** ** Response handling and the try-on call *)
(* ================================================================== *)

Module GeminiServiceProofs.

Import JS GeminiService.

(** The specification's reading of the scan, for comparison with the two
    loops of [handleApiResponse]: all parts of the response, candidate after
    candidate and, within a candidate, in the order of its parts. *)
Definition partsInOrder (cs : list Candidate) : list Part :=
  flat_map (fun candidate =>
              match candidateParts candidate with
              | Some ps => ps
              | None => []
              end) cs.

Definition allParts (response : GenerateContentResponse) : list Part :=
  match candidates response with
  | Some cs => partsInOrder cs
  | None => []
  end.

(** The data URL of an inline-data part. *)
Definition dataUrlOf (b : Blob) : string :=
  "data:" ++ interpolate (mimeType b) ++ ";base64," ++ interpolate (data b).

Lemma scanParts_app (ps qs : list Part) :
  scanParts (ps ++ qs) =
  match scanParts ps with
  | Some dataUrl => Some dataUrl
  | None => scanParts qs
  end.
Proof.
  induction ps as [| part ps IH]; simpl; [reflexivity |].
  destruct (inlineData part); [reflexivity | exact IH].
Qed.

(** The nested loops visit the parts in the order of [partsInOrder]. *)
Lemma scanCandidates_partsInOrder (cs : list Candidate) :
  scanCandidates cs = scanParts (partsInOrder cs).
Proof.
  induction cs as [| candidate cs IH]; simpl; [reflexivity |].
  destruct (candidateParts candidate) as [ps |]; simpl; [| exact IH].
  rewrite scanParts_app, IH. reflexivity.
Qed.

Lemma scanParts_none (ps : list Part) :
  scanParts ps = None <-> (forall part, In part ps -> inlineData part = None).
Proof.
  induction ps as [| part ps IH]; simpl.
  - split; [intros _ q [] | reflexivity].
  - destruct (inlineData part) eqn:Hpart.
    + split; [discriminate |]. intros H. specialize (H part (or_introl eq_refl)). congruence.
    + rewrite IH. split.
      * intros H q [<- | Hq]; [exact Hpart | now apply H].
      * intros H q Hq. apply H. now right.
Qed.

Lemma scanParts_first (before after : list Part) (part : Part) (b : Blob) :
  (forall q, In q before -> inlineData q = None) ->
  inlineData part = Some b ->
  scanParts (before ++ part :: after) = Some (dataUrlOf b).
Proof.
  intros Hbefore Hpart. rewrite scanParts_app.
  apply scanParts_none in Hbefore. rewrite Hbefore. simpl. now rewrite Hpart.
Qed.

(** [handleApiResponse] returns exactly when the scan finds an inline-data
    part, and then it returns what the scan found. *)
Lemma handleApiResponse_returns (response : GenerateContentResponse) (dataUrl : string) :
  handleApiResponse response = Returned dataUrl <->
  scanParts (allParts response) = Some dataUrl.
Proof.
  unfold handleApiResponse, allParts.
  destruct (candidates response) as [[| first rest] |].
  - split; discriminate.
  - rewrite <- scanCandidates_partsInOrder.
    destruct (scanCandidates (first :: rest)) as [found |].
    + split; intros H; injection H as ->; reflexivity.
    + split; [| discriminate].
      destruct (truthy (finishReason first) && _); discriminate.
  - split; discriminate.
Qed.

Lemma handleApiResponse_throws (response : GenerateContentResponse) (e : Exn) :
  handleApiResponse response = Thrown e ->
  forall part, In part (allParts response) -> inlineData part = None.
Proof.
  intros Hthrown. apply scanParts_none.
  destruct (scanParts (allParts response)) as [dataUrl |] eqn:Hscan; [| reflexivity].
  apply handleApiResponse_returns in Hscan. congruence.
Qed.

(** C5. A response whose [candidates] are missing or empty makes
    [handleApiResponse] throw the no-candidate error, so that it returns no
    artifact. *)
Theorem handleApiResponse_no_candidates :
  forall response : GenerateContentResponse,
    candidates response = None \/ candidates response = Some [] ->
    handleApiResponse response =
      Thrown (Error "No candidates returned from the model. This may be due to safety filters.")
    /\ forall dataUrl : string, handleApiResponse response <> Returned dataUrl.
Proof.
  intros response Hnone.
  assert (Hthrown : handleApiResponse response = Thrown (Error noCandidatesMessage)).
  { unfold handleApiResponse. destruct Hnone as [-> | ->]; reflexivity. }
  split; [exact Hthrown |]. intros dataUrl. rewrite Hthrown. discriminate.
Qed.

Lemma handleApiResponse_no_candidates_witness :
  (handleApiResponse {| candidates := None; text := Some "hello" |} =
     Thrown (Error "No candidates returned from the model. This may be due to safety filters.")
   /\ forall dataUrl : string,
        handleApiResponse {| candidates := None; text := Some "hello" |} <> Returned dataUrl)
  /\
  (handleApiResponse {| candidates := Some []; text := None |} =
     Thrown (Error "No candidates returned from the model. This may be due to safety filters.")
   /\ forall dataUrl : string,
        handleApiResponse {| candidates := Some []; text := None |} <> Returned dataUrl).
Proof.
  split.
  - apply handleApiResponse_no_candidates. left. reflexivity.
  - apply handleApiResponse_no_candidates. right. reflexivity.
Defined.

(** A candidate that stopped normally and carries no content. *)
Definition stoppedCandidate : Candidate :=
  {| content := None; finishReason := Some "STOP" |}.

(** One candidate without image data that stopped normally, and a text of
    one space. *)
Definition blankTextResponse : GenerateContentResponse :=
  {| candidates := Some [stoppedCandidate]; text := Some " " |}.

(** C6, as written, fails on a text that is not empty but blank: on
    [blankTextResponse] (candidates without image data, finish reason STOP,
    a text of one space) the error is the no-image message, which quotes no
    text. *)
Lemma handleApiResponse_blank_text :
  (forall part, In part (allParts blankTextResponse) -> inlineData part = None) /\
  finishReason stoppedCandidate = Some "STOP" /\
  text blankTextResponse = Some " " /\
  " " <> EmptyString /\
  handleApiResponse blankTextResponse =
    Thrown (Error "No image was returned. Please try a different prompt or image.") /\
  handleApiResponse blankTextResponse <> Thrown (Error (textInsteadOfImage " ")) /\
  handleApiResponse blankTextResponse <> Thrown (Error (textInsteadOfImage (trim " "))).
Proof.
  repeat split; try discriminate. intros part [].
Qed.

(** C6 (amended). When the response has candidates, none of their parts has
    inline data, the finish reason of the first candidate is STOP or absent,
    and the text of the response is not empty after trimming,
    [handleApiResponse] throws the text-only error, which quotes the trimmed
    text, and returns no artifact. On every response for which it throws,
    no part has inline data: there is nothing an artifact could have been
    built from. *)
Theorem handleApiResponse_text_only :
  forall (response : GenerateContentResponse) (first : Candidate)
         (rest : list Candidate) (t : string),
    candidates response = Some (first :: rest) ->
    (forall part, In part (allParts response) -> inlineData part = None) ->
    finishReason first = None \/ finishReason first = Some "STOP" ->
    text response = Some t ->
    trim t <> EmptyString ->
    handleApiResponse response =
      Thrown (Error ("The model responded with text instead of an image: "
                     ++ dquote ++ trim t ++ dquote))
    /\ (forall dataUrl : string, handleApiResponse response <> Returned dataUrl)
    /\ (forall (other : GenerateContentResponse) (e : Exn),
          handleApiResponse other = Thrown e ->
          forall part, In part (allParts other) -> inlineData part = None).
Proof.
  intros response first rest t Hcands Hnoimg Hfinish Htext Htrim.
  assert (Hthrown : handleApiResponse response = Thrown (Error (textInsteadOfImage (trim t)))).
  { apply scanParts_none in Hnoimg. unfold allParts in Hnoimg.
    rewrite Hcands, <- scanCandidates_partsInOrder in Hnoimg.
    unfold handleApiResponse. rewrite Hcands, Hnoimg, Htext.
    replace (truthy (finishReason first)
             && negb (String.eqb (interpolate (finishReason first)) "STOP")) with false
      by (destruct Hfinish as [-> | ->]; reflexivity).
    simpl. destruct (trim t); [contradiction | reflexivity]. }
  split; [exact Hthrown |]. split.
  - intros dataUrl. rewrite Hthrown. discriminate.
  - intros other e. apply handleApiResponse_throws.
Qed.

(** One candidate without image data that stopped normally, and a refusal
    in words. *)
Definition refusalResponse : GenerateContentResponse :=
  {| candidates := Some [stoppedCandidate]; text := Some "  I cannot do that. " |}.

Lemma handleApiResponse_text_only_witness :
  handleApiResponse refusalResponse =
    Thrown (Error ("The model responded with text instead of an image: "
                   ++ dquote ++ "I cannot do that." ++ dquote))
  /\ (forall dataUrl : string, handleApiResponse refusalResponse <> Returned dataUrl)
  /\ (forall (other : GenerateContentResponse) (e : Exn),
        handleApiResponse other = Thrown e ->
        forall part, In part (allParts other) -> inlineData part = None).
Proof.
  apply (handleApiResponse_text_only refusalResponse stoppedCandidate []
           "  I cannot do that. ").
  - reflexivity.
  - intros part [].
  - right. reflexivity.
  - reflexivity.
  - discriminate.
Defined.



(** A PNG or JPEG or WebP image part, and a part of text. *)
Definition imagePart (mime d : string) : Part :=
  {| inlineData := Some {| mimeType := Some mime; data := Some d |}; part_text := None |}.

Definition chatterPart : Part :=
  {| inlineData := None; part_text := Some "Here you are" |}.

Definition candidateWith (ps : list Part) : Candidate :=
  {| content := Some {| parts := Some ps |}; finishReason := Some "STOP" |}.

(** A response with three images behind a candidate without content and a
    part of text. *)
Definition threeImagesResponse : GenerateContentResponse :=
  {| candidates :=
       Some [ {| content := None; finishReason := None |};
              candidateWith [chatterPart; imagePart "image/png" "AAAA";
                             imagePart "image/jpeg" "BBBB"];
              candidateWith [imagePart "image/webp" "CCCC"] ];
     text := Some "Here you are" |}.


(** On that response the first image, the PNG, is returned. *)
Example handleApiResponse_three_images :
  handleApiResponse threeImagesResponse = Returned "data:image/png;base64,AAAA".
Proof. reflexivity. Qed.

(** *** Decoding a data URL *)

(** No character of [s] satisfies [bad]. *)
Fixpoint noneOf (bad : ascii -> bool) (s : string) : bool :=
  match s with
  | EmptyString => true
  | String c s' => negb (bad c) && noneOf bad s'
  end.

Lemma split_without_sep (sep : ascii) (s : string) :
  noneOf (Ascii.eqb sep) s = true -> split sep s = [s].
Proof.
  induction s as [| c s IH]; simpl; [reflexivity |].
  intros H. apply andb_true_iff in H. destruct H as [Hc Hs].
  rewrite Ascii.eqb_sym. apply negb_true_iff in Hc. rewrite Hc.
  now rewrite (IH Hs).
Qed.

Lemma split_at_first_sep (sep : ascii) (s rest : string) :
  noneOf (Ascii.eqb sep) s = true ->
  split sep (s ++ String sep rest) = s :: split sep rest.
Proof.
  induction s as [| c s IH]; simpl.
  - intros _. now rewrite Ascii.eqb_refl.
  - intros H. apply andb_true_iff in H. destruct H as [Hc Hs].
    rewrite Ascii.eqb_sym. apply negb_true_iff in Hc. rewrite Hc.
    now rewrite (IH Hs).
Qed.

Lemma lazyUntilSemicolon_stops (m rest : string) :
  noneOf (fun c => Ascii.eqb c ";" || isLineTerminator c) m = true ->
  lazyUntilSemicolon (m ++ String ";" rest) = Some m.
Proof.
  induction m as [| c m IH]; simpl; [reflexivity |].
  intros H. apply andb_true_iff in H. destruct H as [Hc Hm].
  apply negb_true_iff, orb_false_iff in Hc. destruct Hc as [Hsemi Hline].
  rewrite Hsemi, Hline, (IH Hm). reflexivity.
Qed.

Lemma append_assoc (s t u : string) : (s ++ t) ++ u = s ++ (t ++ u).
Proof.
  induction s as [| c s IH]; cbn [String.append]; [reflexivity | now rewrite IH].
Qed.

Lemma noneOf_app (bad : ascii -> bool) (s t : string) :
  noneOf bad (s ++ t) = noneOf bad s && noneOf bad t.
Proof.
  induction s as [| c s IH]; cbn [String.append noneOf]; [reflexivity |].
  now rewrite IH, andb_assoc.
Qed.

Lemma noneOf_weaken (bad bad' : ascii -> bool) (s : string) :
  (forall c, bad' c = true -> bad c = true) ->
  noneOf bad s = true -> noneOf bad' s = true.
Proof.
  intros Himp. induction s as [| c s IH]; cbn [noneOf]; [reflexivity |].
  intros H. apply andb_true_iff in H. destruct H as [Hc Hs].
  apply andb_true_iff. split; [| now apply IH].
  apply negb_true_iff in Hc. apply negb_true_iff.
  destruct (bad' c) eqn:Hbad'; [| reflexivity].
  rewrite (Himp c Hbad') in Hc. discriminate.
Qed.

(** The characters that end or split the MIME type of a data URL. *)
Definition mimeDelimiter (c : ascii) : bool :=
  Ascii.eqb c "," || Ascii.eqb c ";" || isLineTerminator c.

(** Decoding inverts the data URL that [handleApiResponse] builds: an
    artifact returned by one call is sent as the same image by the next. *)
Lemma dataUrlToParts_of_dataUrl (mime d : string) :
  mime <> EmptyString ->
  noneOf mimeDelimiter mime = true ->
  noneOf (Ascii.eqb ",") d = true ->
  dataUrlToParts ("data:" ++ mime ++ ";base64," ++ d) = Returned (mime, d).
Proof.
  intros Hne Hmime Hd.
  assert (Hprefix : noneOf (Ascii.eqb ",") ("data:" ++ mime ++ ";base64") = true).
  { rewrite !noneOf_app. apply andb_true_iff. split; [reflexivity |].
    apply andb_true_iff. split; [| reflexivity].
    apply (noneOf_weaken mimeDelimiter); [| exact Hmime].
    intros c Hc. unfold mimeDelimiter. rewrite Ascii.eqb_sym, Hc. reflexivity. }
  assert (Hlazy : noneOf (fun c => Ascii.eqb c ";" || isLineTerminator c) mime = true).
  { apply (noneOf_weaken mimeDelimiter); [| exact Hmime].
    intros c Hc. unfold mimeDelimiter. rewrite <- orb_assoc, Hc. apply orb_true_r. }
  unfold dataUrlToParts.
  replace ("data:" ++ mime ++ ";base64," ++ d)
    with (("data:" ++ mime ++ ";base64") ++ String "," d).
  2:{ rewrite !append_assoc. reflexivity. }
  rewrite (split_at_first_sep _ _ _ Hprefix), (split_without_sep _ _ Hd).
  cbn [JS.length List.length nth].
  change (Z.of_nat 2 <? 2) with false. cbv iota.
  change ("data:" ++ mime ++ ";base64") with ("data:" ++ (mime ++ String ";" "base64")).
  change (matchMime ("data:" ++ (mime ++ String ";" "base64")))
    with (match lazyUntilSemicolon (mime ++ String ";" "base64") with
          | Some g => Some g
          | None => matchMime (mime ++ String ";" "base64")
          end).
  rewrite (lazyUntilSemicolon_stops _ _ Hlazy).
  destruct mime; [contradiction | reflexivity].
Qed.

(** *** The try-on call *)

Section TryOn.

Variable readAsDataURL : File -> Outcome string.
Variable generateContent : GenerateContentParameters -> Outcome GenerateContentResponse.

(** The request of a try-on call for a decoded model image and a garment
    part. *)
Definition tryOnRequest (mime d : string) (garmentImagePart : Part)
  : GenerateContentParameters :=
  {| model_name := model;
     contents := [inlineDataPart mime d; garmentImagePart; textPart tryOnPrompt] |}.

(** The complete behaviour of [generateVirtualTryOnImage]: nothing is sent
    unless both images decode, and then one request is sent. *)
Lemma generateVirtualTryOnImage_run (modelImageUrl : string) (garmentImage : File) :
  generateVirtualTryOnImage readAsDataURL generateContent modelImageUrl garmentImage =
  match dataUrlToParts modelImageUrl with
  | Thrown e => ([], Thrown e)
  | Returned (mime, d) =>
      match fileToPart readAsDataURL garmentImage with
      | (_, Thrown e) => ([], Thrown e)
      | (_, Returned garmentImagePart) =>
          ([tryOnRequest mime d garmentImagePart],
           match generateContent (tryOnRequest mime d garmentImagePart) with
           | Returned response => handleApiResponse response
           | Thrown e => Thrown e
           end)
      end
  end.
Proof.
  unfold generateVirtualTryOnImage, fileToPart, dataUrlToPart, callGenerateContent,
    bind, lift, tryOnRequest.
  destruct (dataUrlToParts modelImageUrl) as [[mime d] | e]; [| reflexivity].
  destruct (readAsDataURL garmentImage) as [garmentUrl | e]; [| reflexivity].
  destruct (dataUrlToParts garmentUrl) as [[gmime gd] | e]; [| reflexivity].
  simpl. destruct (generateContent _) as [response | e]; [| reflexivity].
  destruct (handleApiResponse response); reflexivity.
Qed.

End TryOn.

(** A run that stops before the call: no request, and a thrown outcome. *)
Ltac now_nothing_sent :=
  cbn [fst snd app];
  split; [intros ? [] |];
  split; [simpl; lia |];
  split; intros;
  match goal with
  | H : Thrown _ = Returned _ |- _ => discriminate H
  end.

(** What one run of [generateVirtualTryOnImage] sends: the requests are
    written out as the object literals of the source, [{ inlineData:
    { mimeType, data } }] and [{ text: prompt }]. *)
Lemma generateVirtualTryOnImage_requests
  (readAsDataURL : File -> Outcome string)
  (generateContent : GenerateContentParameters -> Outcome GenerateContentResponse)
  (modelImageUrl : string) (garmentImage : File) :
  let run :=
    generateVirtualTryOnImage readAsDataURL generateContent modelImageUrl garmentImage in
  (forall req : GenerateContentParameters,
      In req (fst run) ->
      exists mime d garmentUrl gmime gd,
        dataUrlToParts modelImageUrl = Returned (mime, d) /\
        readAsDataURL garmentImage = Returned garmentUrl /\
        dataUrlToParts garmentUrl = Returned (gmime, gd) /\
        req = {| model_name := "gemini-2.5-flash-image";
                 contents :=
                   [ {| inlineData := Some {| mimeType := Some mime; data := Some d |};
                        part_text := None |};
                     {| inlineData := Some {| mimeType := Some gmime; data := Some gd |};
                        part_text := None |};
                     {| inlineData := None; part_text := Some tryOnPrompt |} ] |})
  /\ (List.length (fst run) <= 1)%nat
  /\ (forall mime d garmentUrl gmime gd,
        dataUrlToParts modelImageUrl = Returned (mime, d) ->
        readAsDataURL garmentImage = Returned garmentUrl ->
        dataUrlToParts garmentUrl = Returned (gmime, gd) ->
        fst run =
        [ {| model_name := "gemini-2.5-flash-image";
             contents :=
               [ {| inlineData := Some {| mimeType := Some mime; data := Some d |};
                    part_text := None |};
                 {| inlineData := Some {| mimeType := Some gmime; data := Some gd |};
                    part_text := None |};
                 {| inlineData := None; part_text := Some tryOnPrompt |} ] |} ])
  /\ (forall dataUrl : string, snd run = Returned dataUrl -> fst run <> []).
Proof.
  intros run. subst run. rewrite generateVirtualTryOnImage_run.
  unfold fileToPart, dataUrlToPart, bind, lift, tryOnRequest.
  destruct (dataUrlToParts modelImageUrl) as [[mime d] | e].
  2:{ now_nothing_sent. }
  destruct (readAsDataURL garmentImage) as [garmentUrl | e].
  2:{ now_nothing_sent. }
  destruct (dataUrlToParts garmentUrl) as [[gmime gd] | e] eqn:Hgarment.
  2:{ cbn [fst snd app].
      split; [intros ? [] |]. split; [simpl; lia |]. split.
      - intros mime' d' garmentUrl' gmime' gd' _ Hg Hgd.
        injection Hg as <-. rewrite Hgarment in Hgd. discriminate Hgd.
      - intros dataUrl H. discriminate H. }
  cbn [fst snd]. repeat split.
  - intros req [<- | []]. exists mime, d, garmentUrl, gmime, gd. auto.
  - simpl. lia.
  - intros mime' d' garmentUrl' gmime' gd' Hm Hg Hgd.
    injection Hm as <- <-. injection Hg as <-. rewrite Hgarment in Hgd.
    injection Hgd as <- <-. reflexivity.
  - discriminate.
Qed.

(** C4. Every request that [generateVirtualTryOnImage] sends to the
    collaborator has exactly three parts: an inline-data part with the MIME
    type and data decoded from [modelImageUrl] (the artifact the try-on
    starts from), an inline-data part with the MIME type and data of the
    garment image, and the text of the prompt. It sends at most one request;
    it sends that request whenever both images decode; and it returns an image
    only after having sent it. In particular, when [modelImageUrl] is the
    artifact that [handleApiResponse] returned for an earlier response, whose
    first image has a well-formed MIME type [mime] and data [d], the first
    part of the request is that very image: MIME type [mime], data [d]. *)
Theorem generateVirtualTryOnImage_sends_model_image :
  forall (readAsDataURL : File -> Outcome string)
         (generateContent : GenerateContentParameters -> Outcome GenerateContentResponse)
         (modelImageUrl : string) (garmentImage : File),
    let run :=
      generateVirtualTryOnImage readAsDataURL generateContent modelImageUrl garmentImage in
    (forall req : GenerateContentParameters,
        In req (fst run) ->
        exists mime d garmentUrl gmime gd,
          dataUrlToParts modelImageUrl = Returned (mime, d) /\
          readAsDataURL garmentImage = Returned garmentUrl /\
          dataUrlToParts garmentUrl = Returned (gmime, gd) /\
          req = {| model_name := "gemini-2.5-flash-image";
                   contents :=
                     [ {| inlineData := Some {| mimeType := Some mime; data := Some d |};
                          part_text := None |};
                       {| inlineData := Some {| mimeType := Some gmime; data := Some gd |};
                          part_text := None |};
                       {| inlineData := None; part_text := Some tryOnPrompt |} ] |})
    /\ (List.length (fst run) <= 1)%nat
    /\ (forall mime d garmentUrl gmime gd,
          dataUrlToParts modelImageUrl = Returned (mime, d) ->
          readAsDataURL garmentImage = Returned garmentUrl ->
          dataUrlToParts garmentUrl = Returned (gmime, gd) ->
          fst run =
          [ {| model_name := "gemini-2.5-flash-image";
               contents :=
                 [ {| inlineData := Some {| mimeType := Some mime; data := Some d |};
                      part_text := None |};
                   {| inlineData := Some {| mimeType := Some gmime; data := Some gd |};
                      part_text := None |};
                   {| inlineData := None; part_text := Some tryOnPrompt |} ] |} ])
    /\ (forall dataUrl : string, snd run = Returned dataUrl -> fst run <> [])
    /\ (forall (earlier : GenerateContentResponse) (before after : list Part) (part : Part)
               (mime d garmentUrl gmime gd : string),
          allParts earlier = (before ++ part :: after)%list ->
          (forall q, In q before -> inlineData q = None) ->
          inlineData part = Some {| mimeType := Some mime; data := Some d |} ->
          mime <> EmptyString ->
          noneOf mimeDelimiter mime = true ->
          noneOf (Ascii.eqb ",") d = true ->
          handleApiResponse earlier = Returned modelImageUrl ->
          readAsDataURL garmentImage = Returned garmentUrl ->
          dataUrlToParts garmentUrl = Returned (gmime, gd) ->
          modelImageUrl = "data:" ++ mime ++ ";base64," ++ d /\
          fst run =
          [ {| model_name := "gemini-2.5-flash-image";
               contents :=
                 [ {| inlineData := inlineData part; part_text := None |};
                   {| inlineData := Some {| mimeType := Some gmime; data := Some gd |};
                      part_text := None |};
                   {| inlineData := None; part_text := Some tryOnPrompt |} ] |} ]).
Proof.
  intros readAsDataURL generateContent modelImageUrl garmentImage run.
  destruct (generateVirtualTryOnImage_requests readAsDataURL generateContent
              modelImageUrl garmentImage) as [Hshape [Hone [Hsent Hafter]]].
  fold run in Hshape, Hone, Hsent, Hafter.
  split; [exact Hshape |]. split; [exact Hone |]. split; [exact Hsent |].
  split; [exact Hafter |].
  intros earlier before after part mime d garmentUrl gmime gd
         Hsplit Hbefore Hpart Hne Hmime Hd Hret Hread Hgarment.
  assert (Hurl : modelImageUrl = "data:" ++ mime ++ ";base64," ++ d).
  { apply handleApiResponse_returns in Hret.
    rewrite Hsplit, (scanParts_first _ _ _ _ Hbefore Hpart) in Hret.
    injection Hret as <-. reflexivity. }
  split; [exact Hurl |].
  rewrite Hpart. apply (Hsent mime d garmentUrl gmime gd); try assumption.
  rewrite Hurl. now apply dataUrlToParts_of_dataUrl.
Qed.

(** An earlier response with one PNG image, whose artifact the try-on
    starts from. *)
Definition modelResponse : GenerateContentResponse :=
  {| candidates :=
       Some [ {| content :=
                   Some {| parts :=
                             Some [ {| inlineData :=
                                         Some {| mimeType := Some "image/png";
                                                 data := Some "MODEL" |};
                                       part_text := None |} ] |};
                 finishReason := Some "STOP" |} ];
     text := None |}.

(** A try-on from the artifact of [modelResponse], with a garment read as a
    PNG: the artifact is [data:image/png;base64,MODEL], and one request is
    sent, whose first part is the PNG with data MODEL, whose second part is
    the garment and whose third part is the prompt. *)
Lemma generateVirtualTryOnImage_sends_model_image_witness :
  handleApiResponse modelResponse = Returned "data:image/png;base64,MODEL" /\
  fst (generateVirtualTryOnImage
         (fun _ => Returned "data:image/png;base64,SHIRT")
         (fun _ => Returned {| candidates := None; text := None |})
         "data:image/png;base64,MODEL"
         {| name := "shirt.png"; type := "image/png" |})
  = [ {| model_name := "gemini-2.5-flash-image";
         contents :=
           [ {| inlineData := Some {| mimeType := Some "image/png"; data := Some "MODEL" |};
                part_text := None |};
             {| inlineData := Some {| mimeType := Some "image/png"; data := Some "SHIRT" |};
                part_text := None |};
             {| inlineData := None; part_text := Some tryOnPrompt |} ] |} ] /\
  String.prefix "### MISSION: 100% PRECISION VIRTUAL TRY-ON" tryOnPrompt = true.
Proof.
  split; [reflexivity |]. split; [| reflexivity].
  refine (proj2 (proj2 (proj2 (proj2 (proj2
           (generateVirtualTryOnImage_sends_model_image
              (fun _ => Returned "data:image/png;base64,SHIRT")
              (fun _ => Returned {| candidates := None; text := None |})
              "data:image/png;base64,MODEL"
              {| name := "shirt.png"; type := "image/png" |}))))
           modelResponse []  []
           {| inlineData := Some {| mimeType := Some "image/png"; data := Some "MODEL" |};
              part_text := None |}
           "image/png" "MODEL" "data:image/png;base64,SHIRT" "image/png" "SHIRT"
           eq_refl _ eq_refl _ eq_refl eq_refl eq_refl eq_refl eq_refl)).
  - intros q [].
  - discriminate.
Defined.

End GeminiServiceProofs.

(* ================================================================== *)
(** ** Garment selection *)
(* ================================================================== *)

Module WardrobePanelProofs.

Import JS WardrobePanel.

Lemma includes_In (a : list string) (x : string) :
  includes a x = true <-> In x a.
Proof.
  unfold includes. rewrite existsb_exists. split.
  - intros [y [Hin Heq]]. apply String.eqb_eq in Heq. now subst.
  - intros Hin. exists x. split; [exact Hin | apply String.eqb_refl].
Qed.

(** Whatever the event, a file handed to [onGarmentSelect] by the upload
    handler has an image MIME type. *)
Lemma handleFileChange_selects_images_only
  (now : Z) (createObjectURL : File -> string) (e : ChangeEvent)
  (garmentFile : File) (garmentInfo : WardrobeItem) :
  In (onGarmentSelect garmentFile garmentInfo) (handleFileChange now createObjectURL e) ->
  startsWith (type garmentFile) "image/" = true.
Proof.
  unfold handleFileChange.
  destruct (files e) as [[| file rest] |]; try (intros []).
  destruct (startsWith (type file) "image/") eqn:Himage; simpl.
  - intros [Heq | []]. injection Heq as <- _. exact Himage.
  - intros [Heq | []]. discriminate Heq.
Qed.

(** C7. When the file of a change event has a MIME type that does not start
    with [image/], the upload handler sets the error message and makes no
    other call: [onGarmentSelect] is not invoked. *)
Theorem handleFileChange_rejects_non_image :
  forall (now : Z) (createObjectURL : File -> string) (e : ChangeEvent)
         (file : File) (rest : list File),
    files e = Some (file :: rest) ->
    startsWith (type file) "image/" = false ->
    handleFileChange now createObjectURL e = [setError (Some "Please select an image file.")]
    /\ forall (garmentFile : File) (garmentInfo : WardrobeItem),
         ~ In (onGarmentSelect garmentFile garmentInfo)
              (handleFileChange now createObjectURL e).
Proof.
  intros now createObjectURL e file rest Hfiles Htype.
  assert (Hrun : handleFileChange now createObjectURL e
                 = [setError (Some "Please select an image file.")]).
  { unfold handleFileChange. now rewrite Hfiles, Htype. }
  split; [exact Hrun |].
  intros garmentFile garmentInfo. rewrite Hrun. intros [Heq | []]. discriminate Heq.
Qed.

(** A change event that carries a PDF. *)
Definition pdfEvent : ChangeEvent :=
  {| files := Some [ {| JS.name := "notes.pdf"; type := "application/pdf" |} ] |}.

Lemma handleFileChange_rejects_non_image_witness :
  handleFileChange 1700000000000 (fun _ => "blob:1") pdfEvent
    = [setError (Some "Please select an image file.")]
  /\ forall (garmentFile : File) (garmentInfo : WardrobeItem),
       ~ In (onGarmentSelect garmentFile garmentInfo)
            (handleFileChange 1700000000000 (fun _ => "blob:1") pdfEvent).
Proof.
  apply (handleFileChange_rejects_non_image 1700000000000 (fun _ => "blob:1") pdfEvent
           {| JS.name := "notes.pdf"; type := "application/pdf" |} []);
    reflexivity.
Defined.

(** C10. While loading, or for an item whose id is among the active garment
    ids, [handleGarmentClick] makes no call: neither [onGarmentSelect] nor
    [setError]. *)
Theorem handleGarmentClick_active_or_loading :
  forall (urlToFile : string -> string -> Outcome File)
         (onGarmentSelectThrows : File -> WardrobeItem -> bool)
         (props : WardrobePanelProps) (item : WardrobeItem),
    isLoading props = true \/ In (id item) (activeGarmentIds props) ->
    handleGarmentClick urlToFile onGarmentSelectThrows props item = [].
Proof.
  intros urlToFile onGarmentSelectThrows props item [Hload | Hactive];
    unfold handleGarmentClick.
  - now rewrite Hload.
  - apply includes_In in Hactive. rewrite Hactive. now rewrite orb_true_r.
Qed.

(** A wardrobe item, and a fetch of its image that succeeds. *)
Definition shirt : WardrobeItem :=
  {| id := "shirt-1"; name := "Shirt"; url := "https://example.test/shirt.png" |}.

Definition fetched (_ filename : string) : Outcome File :=
  Returned {| JS.name := filename; type := "image/png" |}.

Lemma handleGarmentClick_active_or_loading_witness :
  handleGarmentClick fetched (fun _ _ => false)
    {| activeGarmentIds := ["hat-3"; "shirt-1"]; isLoading := false |} shirt = []
  /\ handleGarmentClick fetched (fun _ _ => false)
       {| activeGarmentIds := []; isLoading := true |} shirt = [].
Proof.
  split.
  - apply handleGarmentClick_active_or_loading. right. simpl. right. left. reflexivity.
  - apply handleGarmentClick_active_or_loading. left. reflexivity.
Defined.

(** An item that is not active, clicked while not loading, is selected once
    its image is fetched. *)
Example handleGarmentClick_selects_inactive :
  handleGarmentClick fetched (fun _ _ => false)
    {| activeGarmentIds := ["hat-3"]; isLoading := false |} shirt
  = [setError None; onGarmentSelect {| JS.name := "Shirt"; type := "image/png" |} shirt].
Proof. reflexivity. Qed.

(** An image file passes the upload handler. *)
Example handleFileChange_accepts_image :
  handleFileChange 1700000000000 (fun _ => "blob:1")
    {| files := Some [ {| JS.name := "coat.jpg"; type := "image/jpeg" |} ] |}
  = [onGarmentSelect {| JS.name := "coat.jpg"; type := "image/jpeg" |}
       {| id := "custom-1700000000000"; name := "coat.jpg"; url := "blob:1" |}].
Proof. reflexivity. Qed.

End WardrobePanelProofs.

(* ================================================================== *)
(** ** More on pose navigation: steps inside the available poses, bounds
       and round trips *)
(* ================================================================== *)

Module PoseNavigation.

Import JS JSFacts Canvas CanvasProofs.

Lemma indexOf_range (a : list string) (x : option string) :
  indexOf a x <> -1 -> 0 <= indexOf a x < JS.length a.
Proof.
  destruct x as [s |]; [| intros H; now contradiction H].
  intros Hfound. apply indexOf_present.
  destruct (in_dec string_dec s a) as [Hin | Hout]; [exact Hin |].
  apply indexOf_absent in Hout. contradiction.
Qed.

(** In an array without duplicates, [indexOf] inverts indexing. *)
Lemma indexOf_get_NoDup (a : list string) (k : Z) (x : string) :
  NoDup a -> get a k = Some x -> indexOf a (Some x) = k.
Proof.
  intros Hnodup Hget.
  pose proof (get_Some_range _ _ _ Hget) as Hk.
  destruct (indexOf_present a x (get_Some_In _ _ _ Hget)) as [Hrange Hat].
  unfold get in Hget, Hat.
  destruct (Z.ltb_spec k 0) as [Hneg | _]; [lia |].
  destruct (Z.ltb_spec (indexOf a (Some x)) 0) as [Hneg | _]; [lia |].
  assert (Heq : Z.to_nat (indexOf a (Some x)) = Z.to_nat k).
  { apply (proj1 (NoDup_nth_error a) Hnodup).
    - unfold JS.length in Hrange. lia.
    - now rewrite Hget, Hat. }
  lia.
Qed.

(** What [handleNextPose] does when the current pose is the available pose
    number [pos] and is not the last one. *)
Lemma handleNextPose_available (p : CanvasProps) (pos : Z) :
  isLoading p = false ->
  indexOf (availablePoseKeys p) (get (poseInstructions p) (currentPoseIndex p)) = pos ->
  0 <= pos ->
  pos + 1 < JS.length (availablePoseKeys p) ->
  handleNextPose p =
  let j := indexOf (poseInstructions p) (get (availablePoseKeys p) (pos + 1)) in
  if negb (j =? -1) then [onSelectPose (Num j)] else [].
Proof.
  intros Hload Hidx Hpos Hnext. unfold handleNextPose.
  rewrite Hload, Hidx.
  destruct (Z.eqb_spec pos (-1)) as [Hm | _]; [lia |].
  destruct (Z.eqb_spec (JS.length (availablePoseKeys p)) 0) as [H0 | _]; [lia |].
  destruct (Z.ltb_spec (pos + 1) (JS.length (availablePoseKeys p))) as [_ | Hge]; [| lia].
  reflexivity.
Qed.

(** The props once the owner of the component has made [j] the current pose
    index, everything else unchanged. *)
Definition withPoseIndex (p : CanvasProps) (j : Z) : CanvasProps :=
  {| isLoading := isLoading p;
     poseInstructions := poseInstructions p;
     currentPoseIndex := j;
     availablePoseKeys := availablePoseKeys p |}.

(** X1. Next inside the available poses. When not loading, with the
    available poses a subsequence of the catalog and the current pose the
    available pose number [pos], not the last one, [handleNextPose] selects
    the catalog index of the next available pose, [available[pos + 1]]. *)
Theorem handleNextPose_steps_to_next_available :
  forall (p : CanvasProps) (c : string) (pos : Z),
    isLoading p = false ->
    Subseq (availablePoseKeys p) (poseInstructions p) ->
    get (poseInstructions p) (currentPoseIndex p) = Some c ->
    indexOf (availablePoseKeys p) (Some c) = pos ->
    pos <> -1 ->
    pos + 1 < JS.length (availablePoseKeys p) ->
    exists (q : string) (j : Z),
      get (availablePoseKeys p) (pos + 1) = Some q /\
      indexOf (poseInstructions p) (Some q) = j /\
      get (poseInstructions p) j = Some q /\
      handleNextPose p = [onSelectPose (Num j)].
Proof.
  intros p c pos Hload Hsub Hcur Hpos Hfound Hnext.
  assert (Hrange : 0 <= pos < JS.length (availablePoseKeys p)).
  { rewrite <- Hpos. apply indexOf_range. now rewrite Hpos. }
  destruct (get_in_range (availablePoseKeys p) (pos + 1) ltac:(lia)) as [q Hq].
  assert (Hqin : In q (poseInstructions p)).
  { apply (Subseq_incl _ _ Hsub). eapply get_Some_In. exact Hq. }
  destruct (indexOf_present _ _ Hqin) as [Hjrange Hjget].
  exists q, (indexOf (poseInstructions p) (Some q)). repeat split; try assumption.
  rewrite (handleNextPose_available p pos); try assumption; try lia.
  - rewrite Hq. cbv zeta.
    destruct (Z.eqb_spec (indexOf (poseInstructions p) (Some q)) (-1)) as [Hm | _]; [lia |].
    reflexivity.
  - now rewrite Hcur.
Qed.

Lemma handleNextPose_steps_to_next_available_witness :
  exists (q : string) (j : Z),
    get (availablePoseKeys (scenario ["A"; "C"; "D"] 0)) (0 + 1) = Some q /\
    indexOf (poseInstructions (scenario ["A"; "C"; "D"] 0)) (Some q) = j /\
    get (poseInstructions (scenario ["A"; "C"; "D"] 0)) j = Some q /\
    handleNextPose (scenario ["A"; "C"; "D"] 0) = [onSelectPose (Num j)].
Proof.
  apply (handleNextPose_steps_to_next_available (scenario ["A"; "C"; "D"] 0) "A" 0).
  - reflexivity.
  - apply Subseq_keep, Subseq_skip, Subseq_keep, Subseq_keep, Subseq_nil.
  - reflexivity.
  - reflexivity.
  - discriminate.
  - reflexivity.
Defined.

(** X2. Next from a pose that is not available. When not loading and the
    current pose, at index [i] of the catalog, is not among the available
    poses, [handleNextPose] selects [(i + 1) mod |catalog|] in the full
    catalog, however few poses are available (it has no guard on their
    number, unlike [handlePreviousPose]). *)
Theorem handleNextPose_from_unavailable :
  forall (p : CanvasProps) (c : string),
    isLoading p = false ->
    get (poseInstructions p) (currentPoseIndex p) = Some c ->
    ~ In c (availablePoseKeys p) ->
    handleNextPose p =
    [onSelectPose (Num ((currentPoseIndex p + 1) mod JS.length (poseInstructions p)))].
Proof.
  intros p c Hload Hcur Hnot.
  pose proof (get_Some_range _ _ _ Hcur) as Hi.
  apply indexOf_absent in Hnot.
  unfold handleNextPose. rewrite Hload, Hcur, Hnot. simpl orb.
  now rewrite rem_nonneg by lia.
Qed.

Lemma handleNextPose_from_unavailable_witness :
  handleNextPose (scenario [] 3) = [onSelectPose (Num 0)] /\
  handleNextPose (scenario ["A"] 1) = [onSelectPose (Num 2)].
Proof.
  split.
  - refine (handleNextPose_from_unavailable (scenario [] 3) "D" eq_refl eq_refl _).
    intros [].
  - refine (handleNextPose_from_unavailable (scenario ["A"] 1) "B" eq_refl eq_refl _).
    intros [H | []]. discriminate H.
Defined.

(** X3. Navigation keeps the index inside the catalog. When the current
    index is an index of the catalog, each of the two handlers makes at most
    one call of [onSelectPose], and the index it passes is an integer [j] with
    [0 <= j < |catalog|], whatever the available poses are. *)
Theorem navigation_selects_catalog_index :
  forall (p : CanvasProps) (n : number),
    0 <= currentPoseIndex p < JS.length (poseInstructions p) ->
    (List.length (handlePreviousPose p) <= 1)%nat /\
    (List.length (handleNextPose p) <= 1)%nat /\
    (In (onSelectPose n) (handlePreviousPose p) \/ In (onSelectPose n) (handleNextPose p) ->
     exists j : Z, n = Num j /\ 0 <= j < JS.length (poseInstructions p)).
Proof.
  intros p n Hi.
  assert (Hmod : forall x, 0 <= x ->
            exists j, rem x (JS.length (poseInstructions p)) = Num j
                      /\ 0 <= j < JS.length (poseInstructions p)).
  { intros x Hx. exists (x mod JS.length (poseInstructions p)).
    split; [apply rem_nonneg; lia | apply Z.mod_pos_bound; lia]. }
  assert (Hidx : forall x call,
            In call (if negb (indexOf (poseInstructions p) x =? -1)
                     then [onSelectPose (Num (indexOf (poseInstructions p) x))] else []) ->
            call = onSelectPose n ->
            exists j, n = Num j /\ 0 <= j < JS.length (poseInstructions p)).
  { intros x call Hin Hcall.
    destruct (Z.eqb_spec (indexOf (poseInstructions p) x) (-1)) as [Hm | Hfound];
      simpl in Hin; [destruct Hin |].
    destruct Hin as [<- | []]. injection Hcall as <-.
    eexists. split; [reflexivity | now apply indexOf_range]. }
  split; [| split].
  - unfold handlePreviousPose.
    destruct (isLoading p || _); [simpl; lia |].
    destruct (_ =? -1); [simpl; lia |].
    destruct (negb _); simpl; lia.
  - unfold handleNextPose.
    destruct (isLoading p); [simpl; lia |].
    destruct (_ || _); [simpl; lia |].
    destruct (_ <? _); [| simpl; lia].
    destruct (negb _); simpl; lia.
  - intros [Hprev | Hnext].
    + unfold handlePreviousPose in Hprev.
      destruct (isLoading p || _); [destruct Hprev |].
      destruct (_ =? -1).
      * destruct Hprev as [Heq | []]. injection Heq as Heq.
        destruct (Hmod (currentPoseIndex p - 1 + JS.length (poseInstructions p))
                    ltac:(lia)) as [j [Hj Hb]].
        exists j. split; [congruence | exact Hb].
      * eapply Hidx; [exact Hprev | reflexivity].
    + unfold handleNextPose in Hnext.
      destruct (isLoading p); [destruct Hnext |].
      destruct (Hmod (currentPoseIndex p + 1) ltac:(lia)) as [j [Hj Hb]].
      destruct (_ || _).
      * destruct Hnext as [Heq | []]. injection Heq as Heq.
        exists j. split; [congruence | exact Hb].
      * destruct (_ <? _).
        -- eapply Hidx; [exact Hnext | reflexivity].
        -- destruct Hnext as [Heq | []]. injection Heq as Heq.
           exists j. split; [congruence | exact Hb].
Qed.

Lemma navigation_selects_catalog_index_witness :
  (List.length (handlePreviousPose (scenario ["A"; "C"] 2)) <= 1)%nat /\
  (List.length (handleNextPose (scenario ["A"; "C"] 2)) <= 1)%nat /\
  (In (onSelectPose (Num 3)) (handlePreviousPose (scenario ["A"; "C"] 2))
   \/ In (onSelectPose (Num 3)) (handleNextPose (scenario ["A"; "C"] 2)) ->
   exists j : Z, Num 3 = Num j /\ 0 <= j < JS.length (poseInstructions (scenario ["A"; "C"] 2))).
Proof.
  apply (navigation_selects_catalog_index (scenario ["A"; "C"] 2) (Num 3)).
  unfold JS.length. simpl. lia.
Defined.

Lemma get_nil {A : Type} (i : Z) : get (@nil A) i = None.
Proof.
  unfold get. destruct (i <? 0); [reflexivity |]. now destruct (Z.to_nat i).
Qed.

(** X4. An empty catalog. With no pose instructions at all, the remainder by
    the zero length is [NaN]: when not loading, [handleNextPose] calls
    [onSelectPose(NaN)], and so does [handlePreviousPose] once two poses are
    listed as available. *)
Theorem navigation_on_empty_catalog :
  forall p : CanvasProps,
    poseInstructions p = [] ->
    isLoading p = false ->
    handleNextPose p = [onSelectPose NaN] /\
    (2 <= JS.length (availablePoseKeys p) -> handlePreviousPose p = [onSelectPose NaN]).
Proof.
  intros p Hempty Hload. split.
  - unfold handleNextPose. rewrite Hload, Hempty, get_nil. reflexivity.
  - intros Hlen. unfold handlePreviousPose. rewrite Hload, Hempty, get_nil.
    destruct (Z.leb_spec (JS.length (availablePoseKeys p)) 1) as [Hle | _]; [lia |].
    reflexivity.
Qed.

Lemma navigation_on_empty_catalog_witness :
  handleNextPose
    {| isLoading := false; poseInstructions := []; currentPoseIndex := 0;
       availablePoseKeys := [] |} = [onSelectPose NaN].
Proof.
  exact (proj1 (navigation_on_empty_catalog
                  {| isLoading := false; poseInstructions := []; currentPoseIndex := 0;
                     availablePoseKeys := [] |} eq_refl eq_refl)).
Defined.

(** X5. Next undoes Previous. When not loading, the catalog has no
    duplicates, the available list has no duplicates and holds only poses of
    the catalog (in any order), and the current pose, at index [i], is
    available and is not the first available pose, [handlePreviousPose]
    selects an index [j], and [handleNextPose], run with [j] as the current
    index and the same available poses, selects [i] again. *)
Theorem next_after_previous_returns :
  forall (p : CanvasProps) (c : string) (pos : Z),
    isLoading p = false ->
    NoDup (poseInstructions p) ->
    NoDup (availablePoseKeys p) ->
    (forall x, In x (availablePoseKeys p) -> In x (poseInstructions p)) ->
    get (poseInstructions p) (currentPoseIndex p) = Some c ->
    indexOf (availablePoseKeys p) (Some c) = pos ->
    1 <= pos ->
    exists j : Z,
      handlePreviousPose p = [onSelectPose (Num j)] /\
      handleNextPose (withPoseIndex p j) = [onSelectPose (Num (currentPoseIndex p))].
Proof.
  intros p c pos Hload Hnodup Havail Hincl Hcur Hpos Hfirst.
  assert (Hin : In c (availablePoseKeys p)).
  { destruct (in_dec string_dec c (availablePoseKeys p)) as [Hin | Hout]; [exact Hin |].
    apply indexOf_absent in Hout. lia. }
  destruct (indexOf_present _ _ Hin) as [Hrange Hat]. rewrite Hpos in Hrange, Hat.
  destruct (get_in_range (availablePoseKeys p) (pos - 1) ltac:(lia)) as [q Hq].
  assert (Hqin : In q (poseInstructions p)).
  { apply Hincl. eapply get_Some_In. exact Hq. }
  destruct (indexOf_present _ _ Hqin) as [Hjrange Hjget].
  exists (indexOf (poseInstructions p) (Some q)). split.
  - rewrite (handlePreviousPose_available p pos); try assumption; try lia.
    + rewrite Z.mod_small by lia. rewrite Hq. cbv zeta.
      destruct (Z.eqb_spec (indexOf (poseInstructions p) (Some q)) (-1)) as [Hm | _]; [lia |].
      reflexivity.
    + now rewrite Hcur.
  - rewrite (handleNextPose_available _ (pos - 1)); try assumption; try lia.
    + cbn [withPoseIndex poseInstructions availablePoseKeys].
      replace (pos - 1 + 1) with pos by lia. rewrite Hat. cbv zeta.
      rewrite (indexOf_get_NoDup _ _ _ Hnodup Hcur).
      destruct (Z.eqb_spec (currentPoseIndex p) (-1)) as [Hm | _].
      * pose proof (get_Some_range _ _ _ Hcur). lia.
      * reflexivity.
    + cbn [withPoseIndex poseInstructions availablePoseKeys currentPoseIndex].
      rewrite Hjget. now apply indexOf_get_NoDup.
    + cbn [withPoseIndex availablePoseKeys]. lia.
Qed.

(** Catalog [A, B, C, D] with the available poses listed as [C, A], current
    pose A: Previous selects C (index 2), and Next from C selects A (index 0)
    again. *)
Lemma next_after_previous_returns_witness :
  exists j : Z,
    handlePreviousPose (scenario ["C"; "A"] 0) = [onSelectPose (Num j)] /\
    handleNextPose (withPoseIndex (scenario ["C"; "A"] 0) j) = [onSelectPose (Num 0)].
Proof.
  apply (next_after_previous_returns (scenario ["C"; "A"] 0) "A" 1).
  - reflexivity.
  - repeat constructor; simpl; intuition discriminate.
  - repeat constructor; simpl; intuition discriminate.
  - simpl. intuition.
  - reflexivity.
  - reflexivity.
  - lia.
Defined.

(** X6. Previous undoes Next. When not loading, the catalog has no
    duplicates, the available list has no duplicates and holds only poses of
    the catalog (in any order), and the current pose, at index [i], is
    available and is not the last available pose, [handleNextPose] selects an
    index [j], and [handlePreviousPose], run with [j] as the current index and
    the same available poses, selects [i] again. *)
Theorem previous_after_next_returns :
  forall (p : CanvasProps) (c : string) (pos : Z),
    isLoading p = false ->
    NoDup (poseInstructions p) ->
    NoDup (availablePoseKeys p) ->
    (forall x, In x (availablePoseKeys p) -> In x (poseInstructions p)) ->
    get (poseInstructions p) (currentPoseIndex p) = Some c ->
    indexOf (availablePoseKeys p) (Some c) = pos ->
    pos <> -1 ->
    pos + 1 < JS.length (availablePoseKeys p) ->
    exists j : Z,
      handleNextPose p = [onSelectPose (Num j)] /\
      handlePreviousPose (withPoseIndex p j) = [onSelectPose (Num (currentPoseIndex p))].
Proof.
  intros p c pos Hload Hnodup Havail Hincl Hcur Hpos Hfound Hlast.
  assert (Hin : In c (availablePoseKeys p)).
  { destruct (in_dec string_dec c (availablePoseKeys p)) as [Hin | Hout]; [exact Hin |].
    apply indexOf_absent in Hout. congruence. }
  destruct (indexOf_present _ _ Hin) as [Hrange Hat]. rewrite Hpos in Hrange, Hat.
  destruct (get_in_range (availablePoseKeys p) (pos + 1) ltac:(lia)) as [q Hq].
  assert (Hqin : In q (poseInstructions p)).
  { apply Hincl. eapply get_Some_In. exact Hq. }
  destruct (indexOf_present _ _ Hqin) as [Hjrange Hjget].
  exists (indexOf (poseInstructions p) (Some q)). split.
  - rewrite (handleNextPose_available p pos); try assumption; try lia.
    + rewrite Hq. cbv zeta.
      destruct (Z.eqb_spec (indexOf (poseInstructions p) (Some q)) (-1)) as [Hm | _]; [lia |].
      reflexivity.
    + now rewrite Hcur.
  - rewrite (handlePreviousPose_available _ (pos + 1)); try assumption; try lia.
    + cbn [withPoseIndex poseInstructions availablePoseKeys].
      replace (pos + 1 - 1) with pos by lia. rewrite Z.mod_small by lia.
      rewrite Hat. cbv zeta.
      rewrite (indexOf_get_NoDup _ _ _ Hnodup Hcur).
      destruct (Z.eqb_spec (currentPoseIndex p) (-1)) as [Hm | _].
      * pose proof (get_Some_range _ _ _ Hcur). lia.
      * reflexivity.
    + cbn [withPoseIndex availablePoseKeys]. lia.
    + cbn [withPoseIndex poseInstructions availablePoseKeys currentPoseIndex].
      rewrite Hjget. now apply indexOf_get_NoDup.
    + cbn [withPoseIndex availablePoseKeys]. lia.
Qed.

(** Catalog [A, B, C, D] with the available poses listed as [C, A], current
    pose C: Next selects A (index 0), and Previous from A selects C (index 2)
    again. *)
Lemma previous_after_next_returns_witness :
  exists j : Z,
    handleNextPose (scenario ["C"; "A"] 2) = [onSelectPose (Num j)] /\
    handlePreviousPose (withPoseIndex (scenario ["C"; "A"] 2) j) = [onSelectPose (Num 2)].
Proof.
  apply (previous_after_next_returns (scenario ["C"; "A"] 2) "C" 0).
  - reflexivity.
  - repeat constructor; simpl; intuition discriminate.
  - repeat constructor; simpl; intuition discriminate.
  - simpl. intuition.
  - reflexivity.
  - reflexivity.
  - discriminate.
  - reflexivity.
Defined.

(** X23. When the arrows do nothing. With the available poses a
    subsequence of the catalog, [handleNextPose] makes no call exactly when
    something is loading, and [handlePreviousPose] makes no call exactly when
    something is loading or at most one pose is available: in every other
    state an arrow selects a pose, whatever the current index. *)
Theorem navigation_noop_iff :
  forall p : CanvasProps,
    Subseq (availablePoseKeys p) (poseInstructions p) ->
    (handleNextPose p = [] <-> isLoading p = true) /\
    (handlePreviousPose p = [] <->
     isLoading p = true \/ JS.length (availablePoseKeys p) <= 1).
Proof.
  intros p Hsub.
  assert (Hhit : forall k, 0 <= k < JS.length (availablePoseKeys p) ->
            (if negb (indexOf (poseInstructions p) (get (availablePoseKeys p) k) =? -1)
             then [onSelectPose (Num (indexOf (poseInstructions p)
                                        (get (availablePoseKeys p) k)))]
             else []) <> []).
  { intros k Hk. destruct (get_in_range _ _ Hk) as [q Hq]. rewrite Hq.
    assert (Hqin : In q (poseInstructions p)).
    { apply (Subseq_incl _ _ Hsub). eapply get_Some_In. exact Hq. }
    destruct (indexOf_present _ _ Hqin) as [Hrange _].
    destruct (Z.eqb_spec (indexOf (poseInstructions p) (Some q)) (-1)) as [Hm | _]; [lia |].
    discriminate. }
  split; split.
  - unfold handleNextPose. destruct (isLoading p); [reflexivity |].
    intros Hnone. exfalso. revert Hnone.
    destruct (Z.eqb_spec (indexOf (availablePoseKeys p)
                            (get (poseInstructions p) (currentPoseIndex p))) (-1))
      as [Hm | Hfound]; [discriminate |].
    destruct (JS.length (availablePoseKeys p) =? 0); [discriminate |]. cbn [orb].
    destruct (Z.ltb_spec (indexOf (availablePoseKeys p)
                            (get (poseInstructions p) (currentPoseIndex p)) + 1)
                         (JS.length (availablePoseKeys p))) as [Hlt | _]; [| discriminate].
    apply Hhit. pose proof (indexOf_range _ _ Hfound). lia.
  - intros Hload. unfold handleNextPose. now rewrite Hload.
  - unfold handlePreviousPose. destruct (isLoading p); [now left |].
    destruct (Z.leb_spec (JS.length (availablePoseKeys p)) 1) as [Hle | Hlen]; [now right |].
    cbn [orb]. intros Hnone. exfalso. revert Hnone.
    destruct (Z.eqb_spec (indexOf (availablePoseKeys p)
                            (get (poseInstructions p) (currentPoseIndex p))) (-1))
      as [Hm | Hfound]; [discriminate |].
    pose proof (indexOf_range _ _ Hfound) as Hrange.
    rewrite rem_nonneg by lia. cbn [get_num].
    apply Hhit. apply Z.mod_pos_bound. lia.
  - intros [Hload | Hlen]; unfold handlePreviousPose.
    + now rewrite Hload.
    + apply Z.leb_le in Hlen. rewrite Hlen. now rewrite orb_true_r.
Qed.

Lemma navigation_noop_iff_witness :
  (handleNextPose (scenario ["A"] 1) = [] <-> isLoading (scenario ["A"] 1) = true) /\
  (handlePreviousPose (scenario ["A"] 1) = [] <->
   isLoading (scenario ["A"] 1) = true \/ JS.length (availablePoseKeys (scenario ["A"] 1)) <= 1).
Proof.
  apply (navigation_noop_iff (scenario ["A"] 1)).
  apply Subseq_keep, Subseq_nil.
Defined.

End PoseNavigation.

(* ================================================================== *)
(** ** Data URLs: what decoding accepts, and artifacts decoded again *)
(* ================================================================== *)

Module DataUrls.

Import JS GeminiService GeminiServiceProofs.

(** [a.join(sep)] for a one-character separator. *)
Fixpoint join (sep : ascii) (a : list string) : string :=
  match a with
  | [] => EmptyString
  | x :: rest =>
      match rest with
      | [] => x
      | _ :: _ => x ++ String sep (join sep rest)
      end
  end.

Lemma split_not_nil (sep : ascii) (s : string) : split sep s <> [].
Proof.
  destruct s as [| c s]; simpl; [discriminate |].
  destruct (Ascii.eqb c sep); [discriminate |].
  destruct (split sep s); discriminate.
Qed.

Lemma join_split (sep : ascii) (s : string) : join sep (split sep s) = s.
Proof.
  induction s as [| c s IH]; [reflexivity |].
  cbn [split]. destruct (Ascii.eqb_spec c sep) as [-> | Hneq].
  - pose proof (split_not_nil sep s) as Hnil.
    cbn [join]. destruct (split sep s) as [| h t]; [contradiction |].
    cbn [String.append]. now rewrite IH.
  - pose proof (split_not_nil sep s) as Hnil.
    destruct (split sep s) as [| h t]; [contradiction |].
    cbn [join] in IH |- *. destruct t as [| h' t].
    + now rewrite IH.
    + cbn [String.append]. now rewrite IH.
Qed.

(** No piece of a split contains the separator. *)
Lemma split_pieces (sep : ascii) (s : string) :
  Forall (fun piece => noneOf (Ascii.eqb sep) piece = true) (split sep s).
Proof.
  induction s as [| c s IH]; cbn [split].
  - constructor; [reflexivity | constructor].
  - destruct (Ascii.eqb c sep) eqn:Hc.
    + constructor; [reflexivity | exact IH].
    + destruct (split sep s) as [| h t]; [repeat constructor |].
      * cbn [noneOf]. now rewrite Ascii.eqb_sym, Hc.
      * inversion IH as [| ? ? Hh Ht]; subst. constructor; [| exact Ht].
        cbn [noneOf]. now rewrite Ascii.eqb_sym, Hc, Hh.
Qed.

(** A string with the separator splits into at least two pieces. *)
Lemma split_with_sep (sep : ascii) (s : string) :
  noneOf (Ascii.eqb sep) s = false ->
  exists first second more, split sep s = first :: second :: more.
Proof.
  induction s as [| c s IH]; cbn [noneOf split]; [discriminate |].
  rewrite (Ascii.eqb_sym sep c).
  destruct (Ascii.eqb c sep); cbn [negb andb].
  - intros _. pose proof (split_not_nil sep s) as Hnil.
    destruct (split sep s) as [| h t]; [contradiction |]. now exists EmptyString, h, t.
  - intros Hs. destruct (IH Hs) as [first [second [more Hsplit]]].
    rewrite Hsplit. now exists (String c first), second, more.
Qed.

Lemma lazyUntilSemicolon_sound (s g : string) :
  lazyUntilSemicolon s = Some g ->
  noneOf (fun c => Ascii.eqb c ";" || isLineTerminator c) g = true /\
  exists rest, s = g ++ String ";" rest.
Proof.
  revert g. induction s as [| c s IH]; intros g; cbn [lazyUntilSemicolon]; [discriminate |].
  destruct (Ascii.eqb_spec c ";") as [-> | Hsemi].
  - intros H. injection H as <-. split; [reflexivity | now exists s].
  - destruct (isLineTerminator c) eqn:Hline; [discriminate |].
    destruct (lazyUntilSemicolon s) as [g' |]; [| discriminate].
    intros H. injection H as <-.
    destruct (IH g' eq_refl) as [Hnone [rest ->]]. split.
    + cbn [noneOf]. rewrite Hline, Hnone.
      destruct (Ascii.eqb_spec c ";") as [Heq | _]; [contradiction | reflexivity].
    + now exists rest.
Qed.

Lemma matchMime_sound (s g : string) :
  matchMime s = Some g ->
  noneOf (fun c => Ascii.eqb c ";" || isLineTerminator c) g = true /\
  exists pre rest, s = pre ++ String ":" (g ++ String ";" rest).
Proof.
  induction s as [| c s IH]; cbn [matchMime]; [discriminate |].
  assert (Hlater : matchMime s = Some g ->
            noneOf (fun c => Ascii.eqb c ";" || isLineTerminator c) g = true /\
            exists pre rest, String c s = pre ++ String ":" (g ++ String ";" rest)).
  { intros H. destruct (IH H) as [Hnone [pre [rest ->]]].
    split; [exact Hnone | now exists (String c pre), rest]. }
  destruct (Ascii.eqb_spec c ":") as [-> | _]; [| exact Hlater].
  destruct (lazyUntilSemicolon s) as [g' |] eqn:Hlazy; [| exact Hlater].
  intros H. injection H as <-.
  destruct (lazyUntilSemicolon_sound _ _ Hlazy) as [Hnone [rest ->]].
  split; [exact Hnone | now exists EmptyString, rest].
Qed.

(** Decoding a string with a comma fails only on the MIME type. *)
Lemma dataUrlToParts_with_comma (u : string) :
  noneOf (Ascii.eqb ",") u = false ->
  (exists mime d, dataUrlToParts u = Returned (mime, d)) \/
  dataUrlToParts u = Thrown (Error "Could not parse MIME type from data URL").
Proof.
  intros Hcomma. destruct (split_with_sep _ _ Hcomma) as [first [second [more Hsplit]]].
  unfold dataUrlToParts. rewrite Hsplit.
  replace (JS.length (first :: second :: more) <? 2) with false
    by (symmetry; apply Z.ltb_ge; unfold JS.length; simpl List.length; lia).
  cbn [nth]. destruct (matchMime first) as [[| c m] |]; [now right | | now right].
  left. now exists (String c m), second.
Qed.

(** X7. [dataUrlToParts] throws [Invalid data URL] exactly on the strings
    without a comma. *)
Theorem dataUrlToParts_invalid_iff_no_comma :
  forall u : string,
    dataUrlToParts u = Thrown (Error "Invalid data URL") <->
    noneOf (Ascii.eqb ",") u = true.
Proof.
  intros u. split.
  - intros Hthrown. destruct (noneOf (Ascii.eqb ",") u) eqn:Hcomma; [reflexivity |].
    destruct (dataUrlToParts_with_comma _ Hcomma) as [[mime [d H]] | H];
      rewrite H in Hthrown; discriminate Hthrown.
  - intros Hnone. unfold dataUrlToParts. now rewrite (split_without_sep _ _ Hnone).
Qed.

Lemma dataUrlToParts_invalid_iff_no_comma_witness :
  dataUrlToParts "image/png;base64" = Thrown (Error "Invalid data URL").
Proof.
  apply (proj2 (dataUrlToParts_invalid_iff_no_comma "image/png;base64")). reflexivity.
Defined.

Lemma noneOf_either (bad bad' : ascii -> bool) (s : string) :
  noneOf bad s = true -> noneOf bad' s = true ->
  noneOf (fun c => bad c || bad' c) s = true.
Proof.
  induction s as [| c s IH]; cbn [noneOf]; [reflexivity |].
  intros H H'. apply andb_true_iff in H, H'.
  destruct H as [Hc Hs], H' as [Hc' Hs'].
  apply negb_true_iff in Hc, Hc'. now rewrite Hc, Hc', (IH Hs Hs').
Qed.

Lemma append_empty_r (s : string) : s ++ EmptyString = s.
Proof.
  induction s as [| c s IH]; cbn [String.append]; [reflexivity | now rewrite IH].
Qed.

Lemma url_shape_assoc (pre mime rest x : string) :
  (pre ++ String ":" (mime ++ String ";" rest)) ++ x
  = pre ++ String ":" (mime ++ String ";" (rest ++ x)).
Proof.
  rewrite append_assoc. cbn [String.append]. now rewrite append_assoc.
Qed.

(** X8. What a successful decoding says about the data URL. When
    [dataUrlToParts] returns [(mime, d)], the URL reads
    [pre : mime ; rest , d tail], where [tail] is empty or starts with a
    comma; [mime] is not empty and has no comma, semicolon or line terminator;
    [d] has no comma: it is the text between the first comma and the second,
    if there is a second. *)
Theorem dataUrlToParts_sound :
  forall u mime d : string,
    dataUrlToParts u = Returned (mime, d) ->
    mime <> EmptyString /\
    noneOf mimeDelimiter mime = true /\
    noneOf (Ascii.eqb ",") d = true /\
    exists pre rest tail : string,
      u = pre ++ String ":" (mime ++ String ";" (rest ++ String "," (d ++ tail))) /\
      (tail = EmptyString \/ exists t, tail = String "," t).
Proof.
  intros u mime d. unfold dataUrlToParts.
  pose proof (join_split "," u) as Hjoin.
  pose proof (split_pieces "," u) as Hpieces.
  destruct (split "," u) as [| first [| second more]];
    try (unfold JS.length; simpl; discriminate).
  replace (JS.length (first :: second :: more) <? 2) with false
    by (symmetry; apply Z.ltb_ge; unfold JS.length; simpl List.length; lia).
  cbn [nth]. destruct (matchMime first) as [[| c m] |] eqn:Hmatch; try discriminate.
  intros H. injection H as <- <-.
  destruct (matchMime_sound _ _ Hmatch) as [Hnone [pre [rest Hfirst]]].
  inversion Hpieces as [| ? ? Hfirstc Hrest]; subst.
  inversion Hrest as [| ? ? Hsecond _]; subst.
  assert (Hmimec : noneOf (Ascii.eqb ",") (String c m) = true).
  { rewrite noneOf_app in Hfirstc. apply andb_true_iff in Hfirstc.
    destruct Hfirstc as [_ Hafter].
    change (String ":" (String c m ++ String ";" rest))
      with (String ":" EmptyString ++ (String c m ++ String ";" rest)) in Hafter.
    rewrite !noneOf_app in Hafter.
    apply andb_true_iff in Hafter. destruct Hafter as [_ Hafter].
    apply andb_true_iff in Hafter. now destruct Hafter. }
  split; [discriminate |]. split; [| split; [exact Hsecond |]].
  - apply (noneOf_weaken
             (fun ch => Ascii.eqb "," ch || (Ascii.eqb ch ";" || isLineTerminator ch))).
    + intros ch. unfold mimeDelimiter. rewrite (Ascii.eqb_sym ch ","), <- orb_assoc. auto.
    + now apply noneOf_either.
  - exists pre, rest. cbn [join]. destruct more as [| third more'].
    + exists EmptyString. split; [| now left].
      now rewrite url_shape_assoc, append_empty_r.
    + exists (String "," (join "," (third :: more'))). split; [| right; eauto].
      now rewrite url_shape_assoc.
Qed.

Lemma dataUrlToParts_sound_witness :
  "image/png" <> EmptyString /\
  noneOf mimeDelimiter "image/png" = true /\
  noneOf (Ascii.eqb ",") "AAAA" = true /\
  exists pre rest tail : string,
    "data:image/png;base64,AAAA,BBBB"
    = pre ++ String ":" ("image/png" ++ String ";" (rest ++ String "," ("AAAA" ++ tail))) /\
    (tail = EmptyString \/ exists t, tail = String "," t).
Proof.
  apply (dataUrlToParts_sound "data:image/png;base64,AAAA,BBBB" "image/png" "AAAA").
  reflexivity.
Defined.

(** X9. An artifact is decoded to the image it was built from. When the
    first part with inline data of a response has a MIME type that is not
    empty and has no comma, semicolon or line terminator, and data without a
    comma, [handleApiResponse] returns a data URL that [dataUrlToPart] turns
    back into a part with that same MIME type and data: what one call
    returned is what the next call sends. *)
Theorem artifact_decodes_to_its_image :
  forall (response : GenerateContentResponse) (before after : list Part)
         (part : Part) (mime d : string),
    allParts response = (before ++ part :: after)%list ->
    (forall q, In q before -> inlineData q = None) ->
    inlineData part = Some {| mimeType := Some mime; data := Some d |} ->
    mime <> EmptyString ->
    noneOf mimeDelimiter mime = true ->
    noneOf (Ascii.eqb ",") d = true ->
    exists dataUrl : string,
      handleApiResponse response = Returned dataUrl /\
      dataUrlToPart dataUrl =
        Returned {| inlineData := Some {| mimeType := Some mime; data := Some d |};
                    part_text := None |}.
Proof.
  intros response before after part mime d Hparts Hbefore Hpart Hne Hmime Hd.
  exists ("data:" ++ mime ++ ";base64," ++ d). split.
  - apply handleApiResponse_returns. rewrite Hparts.
    now rewrite (scanParts_first _ _ _ _ Hbefore Hpart).
  - unfold dataUrlToPart. now rewrite dataUrlToParts_of_dataUrl.
Qed.

Lemma artifact_decodes_to_its_image_witness :
  exists dataUrl : string,
    handleApiResponse threeImagesResponse = Returned dataUrl /\
    dataUrlToPart dataUrl =
      Returned {| inlineData := Some {| mimeType := Some "image/png"; data := Some "AAAA" |};
                  part_text := None |}.
Proof.
  apply (artifact_decodes_to_its_image threeImagesResponse
           [chatterPart] [imagePart "image/jpeg" "BBBB"; imagePart "image/webp" "CCCC"]
           (imagePart "image/png" "AAAA") "image/png" "AAAA").
  - reflexivity.
  - intros q [<- | []]. reflexivity.
  - reflexivity.
  - discriminate.
  - reflexivity.
  - reflexivity.
Defined.

Lemma scanParts_Some (ps : list Part) (dataUrl : string) :
  scanParts ps = Some dataUrl -> exists b : Blob, dataUrl = dataUrlOf b.
Proof.
  induction ps as [| part ps IH]; cbn [scanParts]; [discriminate |].
  destruct (inlineData part) as [b |]; [| exact IH].
  intros H. injection H as <-. now exists b.
Qed.

(** X10. An artifact is never an invalid data URL. Whatever the response,
    a data URL returned by [handleApiResponse] has a comma, so that
    [dataUrlToParts] either decodes it or fails on its MIME type; it does not
    throw [Invalid data URL]. *)
Theorem artifact_is_never_invalid :
  forall (response : GenerateContentResponse) (dataUrl : string),
    handleApiResponse response = Returned dataUrl ->
    dataUrlToParts dataUrl <> Thrown (Error "Invalid data URL") /\
    ((exists mime d, dataUrlToParts dataUrl = Returned (mime, d)) \/
     dataUrlToParts dataUrl = Thrown (Error "Could not parse MIME type from data URL")).
Proof.
  intros response dataUrl Hret.
  apply handleApiResponse_returns, scanParts_Some in Hret. destruct Hret as [b ->].
  assert (Hcomma : noneOf (Ascii.eqb ",") (dataUrlOf b) = false).
  { unfold dataUrlOf. rewrite !noneOf_app.
    change (noneOf (Ascii.eqb ",") ";base64,") with false.
    now rewrite andb_false_r. }
  split; [| now apply dataUrlToParts_with_comma].
  destruct (dataUrlToParts_with_comma _ Hcomma) as [[mime [d H]] | H]; rewrite H; discriminate.
Qed.

Lemma artifact_is_never_invalid_witness :
  dataUrlToParts "data:image/png;base64,AAAA" <> Thrown (Error "Invalid data URL") /\
  ((exists mime d, dataUrlToParts "data:image/png;base64,AAAA" = Returned (mime, d)) \/
   dataUrlToParts "data:image/png;base64,AAAA"
   = Thrown (Error "Could not parse MIME type from data URL")).
Proof.
  apply (artifact_is_never_invalid threeImagesResponse "data:image/png;base64,AAAA").
  reflexivity.
Defined.

(** The second case occurs: an image part with an empty MIME type gives an
    artifact that the next call cannot decode. *)
Example artifact_with_empty_mime_type :
  handleApiResponse
    {| candidates := Some [candidateWith [imagePart EmptyString "AAAA"]]; text := None |}
  = Returned "data:;base64,AAAA"
  /\ dataUrlToParts "data:;base64,AAAA"
     = Thrown (Error "Could not parse MIME type from data URL").
Proof. split; reflexivity. Qed.

End DataUrls.

(* ================================================================== *)
(** ** The failures of response handling *)
(* ================================================================== *)

Module ResponseFailures.

Import JS GeminiService GeminiServiceProofs.

(** The error of a generation that stopped for the given reason. *)
Definition stoppedMessage (reason : string) : string :=
  "Generation stopped unexpectedly. Reason: " ++ reason ++ ".".

Lemma no_inline_data_scan (response : GenerateContentResponse) (cs : list Candidate) :
  candidates response = Some cs ->
  (forall part, In part (allParts response) -> inlineData part = None) ->
  scanCandidates cs = None.
Proof.
  intros Hcands Hnone. apply scanParts_none in Hnone.
  unfold allParts in Hnone. now rewrite Hcands, <- scanCandidates_partsInOrder in Hnone.
Qed.

(** X11. A generation that stopped for another reason than STOP. When no
    part of the response has inline data and the first candidate has a finish
    reason that is neither empty nor STOP, [handleApiResponse] throws the
    error that names this reason, whatever text the response carries and
    whatever the finish reasons of the other candidates. *)
Theorem handleApiResponse_unexpected_finish :
  forall (response : GenerateContentResponse) (first : Candidate)
         (rest : list Candidate) (reason : string),
    candidates response = Some (first :: rest) ->
    (forall part, In part (allParts response) -> inlineData part = None) ->
    finishReason first = Some reason ->
    reason <> EmptyString ->
    reason <> "STOP" ->
    handleApiResponse response =
      Thrown (Error ("Generation stopped unexpectedly. Reason: " ++ reason ++ ".")).
Proof.
  intros response first rest reason Hcands Hnone Hfinish Hne Hstop.
  unfold handleApiResponse.
  rewrite Hcands, (no_inline_data_scan _ _ Hcands Hnone), Hfinish.
  cbn [interpolate truthy].
  destruct reason as [| c r]; [contradiction |].
  apply String.eqb_neq in Hstop. now rewrite Hstop.
Qed.

(** A response blocked for safety, with a text and a second candidate that
    stopped normally. *)
Definition blockedResponse : GenerateContentResponse :=
  {| candidates := Some [ {| content := None; finishReason := Some "SAFETY" |};
                          stoppedCandidate ];
     text := Some "I cannot help with that." |}.

Lemma handleApiResponse_unexpected_finish_witness :
  handleApiResponse blockedResponse =
    Thrown (Error ("Generation stopped unexpectedly. Reason: " ++ "SAFETY" ++ ".")).
Proof.
  apply (handleApiResponse_unexpected_finish blockedResponse
           {| content := None; finishReason := Some "SAFETY" |} [stoppedCandidate] "SAFETY").
  - reflexivity.
  - intros part [].
  - reflexivity.
  - discriminate.
  - discriminate.
Defined.

(** X12. Nothing to show. When no part of the response has inline data, the
    finish reason of the first candidate is absent, empty or STOP, and the
    text is absent or blank, [handleApiResponse] throws the no-image
    error. *)
Theorem handleApiResponse_no_image :
  forall (response : GenerateContentResponse) (first : Candidate) (rest : list Candidate),
    candidates response = Some (first :: rest) ->
    (forall part, In part (allParts response) -> inlineData part = None) ->
    finishReason first = None \/ finishReason first = Some EmptyString
      \/ finishReason first = Some "STOP" ->
    text response = None \/ (exists t, text response = Some t /\ trim t = EmptyString) ->
    handleApiResponse response =
      Thrown (Error "No image was returned. Please try a different prompt or image.").
Proof.
  intros response first rest Hcands Hnone Hfinish Htext.
  unfold handleApiResponse.
  rewrite Hcands, (no_inline_data_scan _ _ Hcands Hnone).
  replace (truthy (finishReason first)
           && negb (String.eqb (interpolate (finishReason first)) "STOP")) with false
    by (destruct Hfinish as [-> | [-> | ->]]; reflexivity).
  destruct Htext as [-> | [t [-> Htrim]]]; cbn [option_map truthy].
  - reflexivity.
  - now rewrite Htrim.
Qed.

Lemma handleApiResponse_no_image_witness :
  handleApiResponse
    {| candidates := Some [ {| content := Some {| parts := Some [] |};
                               finishReason := None |} ];
       text := None |}
  = Thrown (Error "No image was returned. Please try a different prompt or image.").
Proof.
  apply (handleApiResponse_no_image _
           {| content := Some {| parts := Some [] |}; finishReason := None |} []).
  - reflexivity.
  - intros part [].
  - left. reflexivity.
  - left. reflexivity.
Defined.

(** X13. The failures of [handleApiResponse]. Whenever it throws, it throws
    an [Error], with one of four messages: no candidates; the generation
    stopped for a reason that is neither empty nor STOP; the model answered
    with a text, quoted trimmed and not empty; no image was returned. *)
Theorem handleApiResponse_failure_kinds :
  forall (response : GenerateContentResponse) (e : Exn),
    handleApiResponse response = Thrown e ->
    e = Error noCandidatesMessage \/
    (exists reason, reason <> EmptyString /\ reason <> "STOP" /\
                    e = Error (stoppedMessage reason)) \/
    (exists t, t <> EmptyString /\ text response = Some t /\
               e = Error (textInsteadOfImage (trim t)) /\ trim t <> EmptyString) \/
    e = Error noImageMessage.
Proof.
  intros response e. unfold handleApiResponse.
  destruct (candidates response) as [[| first rest] |].
  - intros H. injection H as <-. now left.
  - destruct (scanCandidates (first :: rest)); [discriminate |].
    destruct (finishReason first) as [[| c r] |]; cbn [truthy interpolate andb].
    2:{ destruct (String.eqb_spec (String c r) "STOP") as [Hstop | Hstop]; cbn [negb].
        2:{ intros H. injection H as <-. right. left. exists (String c r).
            repeat split; [discriminate | exact Hstop]. }
        destruct (text response) as [t |]; cbn [option_map truthy].
        - destruct (trim t) as [| c' t'] eqn:Htrim; intros H; injection H as <-.
          + now right; right; right.
          + right. right. left. exists t. rewrite Htrim.
            repeat split; try discriminate.
            intros ->. discriminate Htrim.
        - intros H. injection H as <-. now right; right; right. }
    all: destruct (text response) as [t |]; cbn [option_map truthy];
      [ destruct (trim t) as [| c' t'] eqn:Htrim; intros H; injection H as <-;
        [ now right; right; right
        | right; right; left; exists t; rewrite Htrim;
          repeat split; try discriminate; intros ->; discriminate Htrim ]
      | intros H; injection H as <-; now right; right; right ].
  - intros H. injection H as <-. now left.
Qed.

Lemma handleApiResponse_failure_kinds_witness :
  Error (stoppedMessage "SAFETY") = Error noCandidatesMessage \/
  (exists reason, reason <> EmptyString /\ reason <> "STOP" /\
                  Error (stoppedMessage "SAFETY") = Error (stoppedMessage reason)) \/
  (exists t, t <> EmptyString /\ text blockedResponse = Some t /\
             Error (stoppedMessage "SAFETY") = Error (textInsteadOfImage (trim t)) /\
             trim t <> EmptyString) \/
  Error (stoppedMessage "SAFETY") = Error noImageMessage.
Proof.
  apply (handleApiResponse_failure_kinds blockedResponse (Error (stoppedMessage "SAFETY"))).
  reflexivity.
Defined.

End ResponseFailures.

(* ================================================================== *)
(** ** The three calls to the collaborator *)
(* ================================================================== *)

Module ServiceCalls.

Import JS GeminiService GeminiServiceProofs.

Section Calls.

Variable readAsDataURL : File -> Outcome string.
Variable generateContent : GenerateContentParameters -> Outcome GenerateContentResponse.

(** How a function ends once its request [req] is built: with the
    collaborator's error, or with what [handleApiResponse] makes of the
    response. *)
Definition settle (req : GenerateContentParameters) : Outcome string :=
  match generateContent req with
  | Returned response => handleApiResponse response
  | Thrown e => Thrown e
  end.

Lemma send_and_handle (req : GenerateContentParameters) :
  bind (callGenerateContent generateContent req)
       (fun response => lift (handleApiResponse response))
  = ([req], settle req).
Proof.
  unfold bind, callGenerateContent, lift, settle.
  destruct (generateContent req) as [response | e]; [| reflexivity].
  destruct (handleApiResponse response); reflexivity.
Qed.

(** The run of [generateModelImage]. *)
Lemma generateModelImage_run (userImage : File) :
  generateModelImage readAsDataURL generateContent userImage =
  match readAsDataURL userImage with
  | Thrown e => ([], Thrown e)
  | Returned dataUrl =>
      match dataUrlToParts dataUrl with
      | Thrown e => ([], Thrown e)
      | Returned (mime, d) =>
          let req := {| model_name := model;
                        contents := [inlineDataPart mime d; textPart modelPrompt] |} in
          ([req], settle req)
      end
  end.
Proof.
  unfold generateModelImage, fileToPart, dataUrlToPart.
  destruct (readAsDataURL userImage) as [dataUrl | e]; [| reflexivity].
  unfold bind at 2. unfold lift at 1 2.
  destruct (dataUrlToParts dataUrl) as [[mime d] | e]; [| reflexivity].
  unfold bind at 1. cbv zeta. rewrite send_and_handle. reflexivity.
Qed.

(** The run of [generatePoseVariation]. *)
Lemma generatePoseVariation_run (tryOnImageUrl poseInstruction : string) :
  generatePoseVariation generateContent tryOnImageUrl poseInstruction =
  match dataUrlToParts tryOnImageUrl with
  | Thrown e => ([], Thrown e)
  | Returned (mime, d) =>
      let req := {| model_name := model;
                    contents := [inlineDataPart mime d;
                                 textPart (posePrompt poseInstruction)] |} in
      ([req], settle req)
  end.
Proof.
  unfold generatePoseVariation, dataUrlToPart.
  destruct (dataUrlToParts tryOnImageUrl) as [[mime d] | e]; [| reflexivity].
  unfold bind at 1. unfold lift at 1. cbv zeta. rewrite send_and_handle. reflexivity.
Qed.

End Calls.

(** Where a settled outcome comes from. *)
Lemma settle_returned
  (generateContent : GenerateContentParameters -> Outcome GenerateContentResponse)
  (req : GenerateContentParameters) (artifact : string) :
  settle generateContent req = Returned artifact ->
  exists response,
    generateContent req = Returned response /\ handleApiResponse response = Returned artifact.
Proof.
  unfold settle. destruct (generateContent req) as [response | e]; [| discriminate].
  intros H. now exists response.
Qed.

Lemma settle_thrown
  (generateContent : GenerateContentParameters -> Outcome GenerateContentResponse)
  (req : GenerateContentParameters) (e : Exn) :
  generateContent req = Thrown e -> settle generateContent req = Thrown e.
Proof. unfold settle. now intros ->. Qed.

(** Stub collaborators for the examples: a reader that yields the same PNG
    for every file, a collaborator that answers with three images, and one
    whose call fails. *)
Definition readsShirt (_ : File) : Outcome string :=
  Returned "data:image/png;base64,SHIRT".

Definition answersWithImages (_ : GenerateContentParameters)
  : Outcome GenerateContentResponse :=
  Returned threeImagesResponse.

Definition networkDown (_ : GenerateContentParameters) : Outcome GenerateContentResponse :=
  Thrown (Foreign "network error").

Definition shirtFile : File := {| name := "shirt.png"; type := "image/png" |}.

(** X14. The contract of [generateModelImage]. Every request it sends has,
    as its parts, the user's image as decoded from what the file reader
    yields, then the model prompt; it sends at most one request. It returns
    an image only if the collaborator answered its request and
    [handleApiResponse] returned that image from the answer; if the
    collaborator's call fails, it fails with the same error; if the reader
    fails, it fails with the reader's error and sends nothing. *)
Theorem generateModelImage_contract :
  forall (readAsDataURL : File -> Outcome string)
         (generateContent : GenerateContentParameters -> Outcome GenerateContentResponse)
         (userImage : File),
    let run := generateModelImage readAsDataURL generateContent userImage in
    (forall req : GenerateContentParameters,
        In req (fst run) ->
        exists dataUrl mime d,
          readAsDataURL userImage = Returned dataUrl /\
          dataUrlToParts dataUrl = Returned (mime, d) /\
          req = {| model_name := "gemini-2.5-flash-image";
                   contents :=
                     [ {| inlineData := Some {| mimeType := Some mime; data := Some d |};
                          part_text := None |};
                       {| inlineData := None; part_text := Some modelPrompt |} ] |})
    /\ (List.length (fst run) <= 1)%nat
    /\ (forall artifact : string,
          snd run = Returned artifact ->
          exists req response,
            fst run = [req] /\ generateContent req = Returned response /\
            handleApiResponse response = Returned artifact)
    /\ (forall req e,
          fst run = [req] -> generateContent req = Thrown e -> snd run = Thrown e)
    /\ (forall e, readAsDataURL userImage = Thrown e -> run = ([], Thrown e)).
Proof.
  intros readAsDataURL generateContent userImage run. subst run.
  rewrite generateModelImage_run.
  destruct (readAsDataURL userImage) as [dataUrl | e0].
  2:{ cbn [fst snd]. repeat split; try discriminate.
      - intros req [].
      - simpl. lia.
      - intros e H. now injection H as <-. }
  destruct (dataUrlToParts dataUrl) as [[mime d] | e0] eqn:Hdecode.
  2:{ cbn [fst snd]. repeat split; try discriminate.
      - intros req [].
      - simpl. lia. }
  cbv zeta. cbn [fst snd]. repeat split; try discriminate.
  - intros req [<- | []]. now exists dataUrl, mime, d.
  - simpl. lia.
  - intros artifact Hret. destruct (settle_returned _ _ _ Hret) as [response [H1 H2]].
    eexists. exists response. repeat split; [exact H1 | exact H2].
  - intros req e Hreq. injection Hreq as <-. apply settle_thrown.
Qed.

Lemma generateModelImage_contract_witness :
  snd (generateModelImage readsShirt networkDown shirtFile)
  = Thrown (Foreign "network error") /\
  String.prefix "You are an expert fashion photographer AI. Transform the person"
                modelPrompt = true.
Proof.
  split; [| reflexivity].
  exact (proj1 (proj2 (proj2 (proj2
           (generateModelImage_contract readsShirt networkDown shirtFile))))
           {| model_name := "gemini-2.5-flash-image";
              contents :=
                [ {| inlineData := Some {| mimeType := Some "image/png";
                                           data := Some "SHIRT" |};
                     part_text := None |};
                  {| inlineData := None; part_text := Some modelPrompt |} ] |}
           (Foreign "network error") eq_refl eq_refl).
Defined.

(** X15. The contract of [generatePoseVariation]. Every request it sends
    has, as its parts, the image decoded from [tryOnImageUrl], then the pose
    prompt built around the pose instruction; it sends at most one request.
    It returns an image only if the collaborator answered its request and
    [handleApiResponse] returned that image from the answer; if the
    collaborator's call fails, it fails with the same error; if the URL does
    not decode, it fails with the decoding error and sends nothing. *)
Theorem generatePoseVariation_contract :
  forall (generateContent : GenerateContentParameters -> Outcome GenerateContentResponse)
         (tryOnImageUrl poseInstruction : string),
    let run := generatePoseVariation generateContent tryOnImageUrl poseInstruction in
    (forall req : GenerateContentParameters,
        In req (fst run) ->
        exists mime d,
          dataUrlToParts tryOnImageUrl = Returned (mime, d) /\
          req = {| model_name := "gemini-2.5-flash-image";
                   contents :=
                     [ {| inlineData := Some {| mimeType := Some mime; data := Some d |};
                          part_text := None |};
                       {| inlineData := None;
                          part_text := Some (posePrompt poseInstruction) |} ] |})
    /\ (List.length (fst run) <= 1)%nat
    /\ (forall artifact : string,
          snd run = Returned artifact ->
          exists req response,
            fst run = [req] /\ generateContent req = Returned response /\
            handleApiResponse response = Returned artifact)
    /\ (forall req e,
          fst run = [req] -> generateContent req = Thrown e -> snd run = Thrown e)
    /\ (forall e, dataUrlToParts tryOnImageUrl = Thrown e -> run = ([], Thrown e)).
Proof.
  intros generateContent tryOnImageUrl poseInstruction run. subst run.
  rewrite generatePoseVariation_run.
  destruct (dataUrlToParts tryOnImageUrl) as [[mime d] | e0].
  2:{ cbn [fst snd]. repeat split; try discriminate.
      - intros req [].
      - simpl. lia.
      - intros e H. now injection H as <-. }
  cbv zeta. cbn [fst snd]. repeat split; try discriminate.
  - intros req [<- | []]. now exists mime, d.
  - simpl. lia.
  - intros artifact Hret. destruct (settle_returned _ _ _ Hret) as [response [H1 H2]].
    eexists. exists response. repeat split; [exact H1 | exact H2].
  - intros req e Hreq. injection Hreq as <-. apply settle_thrown.
Qed.

Lemma generatePoseVariation_contract_witness :
  generatePoseVariation answersWithImages "no data url here" "Side profile view"
  = ([], Thrown (Error "Invalid data URL")) /\
  snd (generatePoseVariation networkDown "data:image/png;base64,AAAA" "Side profile view")
  = Thrown (Foreign "network error") /\
  String.prefix
    ("You are an expert fashion photographer AI. Regenerate this exact person in this exact outfit from a new perspective: "
     ++ String "034" "Side profile view" ++ String "034" ". ")
    (posePrompt "Side profile view") = true.
Proof.
  split; [| split; [| reflexivity]].
  - exact (proj2 (proj2 (proj2 (proj2
             (generatePoseVariation_contract answersWithImages
                "no data url here" "Side profile view"))))
             (Error "Invalid data URL") eq_refl).
  - exact (proj1 (proj2 (proj2 (proj2
             (generatePoseVariation_contract networkDown
                "data:image/png;base64,AAAA" "Side profile view"))))
             {| model_name := "gemini-2.5-flash-image";
                contents :=
                  [ {| inlineData := Some {| mimeType := Some "image/png";
                                             data := Some "AAAA" |};
                       part_text := None |};
                    {| inlineData := None;
                       part_text := Some (posePrompt "Side profile view") |} ] |}
             (Foreign "network error") eq_refl eq_refl).
Defined.

(** X16. How a try-on ends. [generateVirtualTryOnImage] returns an image
    only if the collaborator answered its request and [handleApiResponse]
    returned that image from the answer; if the collaborator's call fails, it
    fails with the same error. If the model image URL does not decode, it
    fails with the decoding error and sends nothing, whatever the garment
    file; if the URL decodes and reading the garment fails, it fails with the
    reader's error and sends nothing. *)
Theorem generateVirtualTryOnImage_outcome :
  forall (readAsDataURL : File -> Outcome string)
         (generateContent : GenerateContentParameters -> Outcome GenerateContentResponse)
         (modelImageUrl : string) (garmentImage : File),
    let run :=
      generateVirtualTryOnImage readAsDataURL generateContent modelImageUrl garmentImage in
    (forall artifact : string,
        snd run = Returned artifact ->
        exists req response,
          fst run = [req] /\ generateContent req = Returned response /\
          handleApiResponse response = Returned artifact)
    /\ (forall req e,
          fst run = [req] -> generateContent req = Thrown e -> snd run = Thrown e)
    /\ (forall e, dataUrlToParts modelImageUrl = Thrown e -> run = ([], Thrown e))
    /\ (forall mime d e,
          dataUrlToParts modelImageUrl = Returned (mime, d) ->
          readAsDataURL garmentImage = Thrown e ->
          run = ([], Thrown e)).
Proof.
  intros readAsDataURL generateContent modelImageUrl garmentImage run. subst run.
  rewrite generateVirtualTryOnImage_run. unfold fileToPart, dataUrlToPart, bind, lift.
  destruct (dataUrlToParts modelImageUrl) as [[mime d] | e0].
  2:{ cbn [fst snd]. repeat split; try discriminate.
      intros e H. now injection H as <-. }
  destruct (readAsDataURL garmentImage) as [garmentUrl | e0].
  2:{ cbn [fst snd]. repeat split; try discriminate.
      intros ? ? e _ H. now injection H as <-. }
  destruct (dataUrlToParts garmentUrl) as [[gmime gd] | e0].
  2:{ cbn [fst snd]. repeat split; discriminate. }
  cbn [fst snd]. repeat split; try discriminate.
  - intros artifact Hret.
    destruct (generateContent _) as [response | e] eqn:Hcall; [| discriminate].
    eexists. exists response. repeat split; [exact Hcall | exact Hret].
  - intros req e Hreq Hcall. injection Hreq as <-. now rewrite Hcall.
Qed.

Lemma generateVirtualTryOnImage_outcome_witness :
  generateVirtualTryOnImage readsShirt answersWithImages "no data url here" shirtFile
  = ([], Thrown (Error "Invalid data URL")).
Proof.
  pose proof (generateVirtualTryOnImage_outcome readsShirt answersWithImages
                "no data url here" shirtFile) as H.
  cbv zeta in H. destruct H as [_ [_ [Hdecode _]]].
  apply Hdecode. reflexivity.
Defined.

(** A try-on that succeeds returns the first image of the answer. *)
Example generateVirtualTryOnImage_success :
  snd (generateVirtualTryOnImage readsShirt answersWithImages
         "data:image/png;base64,MODEL" shirtFile)
  = Returned "data:image/png;base64,AAAA".
Proof. reflexivity. Qed.

Lemma length_append (s t : string) :
  String.length (s ++ t) = (String.length s + String.length t)%nat.
Proof.
  induction s as [| c s IH]; cbn [String.append String.length]; [reflexivity | now rewrite IH].
Qed.

Lemma append_inv_tail (s t u : string) : t ++ s = u ++ s -> t = u.
Proof.
  revert u. induction t as [| c t IH]; intros [| c' u] H; cbn [String.append] in H.
  - reflexivity.
  - exfalso. apply (f_equal String.length) in H.
    cbn [String.length] in H. rewrite length_append in H. lia.
  - exfalso. apply (f_equal String.length) in H.
    cbn [String.length] in H. rewrite length_append in H. lia.
  - injection H as -> H. f_equal. now apply IH.
Qed.

(** X17. The request of a pose variation tells the pose. When
    [generatePoseVariation] sends the same request for two pose instructions,
    the two instructions are the same string: the prompt embeds the
    instruction between fixed texts. *)
Theorem generatePoseVariation_request_tells_pose :
  forall (generateContent generateContent' :
            GenerateContentParameters -> Outcome GenerateContentResponse)
         (tryOnImageUrl tryOnImageUrl' poseA poseB : string)
         (req : GenerateContentParameters),
    In req (fst (generatePoseVariation generateContent tryOnImageUrl poseA)) ->
    In req (fst (generatePoseVariation generateContent' tryOnImageUrl' poseB)) ->
    poseA = poseB.
Proof.
  intros generateContent generateContent' urlA urlB poseA poseB req.
  rewrite !generatePoseVariation_run.
  destruct (dataUrlToParts urlA) as [[mimeA dA] | eA]; [| intros []].
  destruct (dataUrlToParts urlB) as [[mimeB dB] | eB]; [| intros _ []].
  cbv zeta. cbn [fst]. intros [<- | []] [Heq | []].
  injection Heq as _ _ Hprompt. unfold posePrompt in Hprompt.
  apply append_inv_tail in Hprompt. now symmetry.
Qed.

Lemma generatePoseVariation_request_tells_pose_witness :
  "Side profile view" = "Side profile view".
Proof.
  apply (generatePoseVariation_request_tells_pose answersWithImages networkDown
           "data:image/png;base64,AAAA" "data:image/png;base64,AAAA"
           "Side profile view" "Side profile view"
           {| model_name := model;
              contents := [inlineDataPart "image/png" "AAAA";
                           textPart (posePrompt "Side profile view")] |});
    left; reflexivity.
Defined.

End ServiceCalls.

(* ================================================================== *)
(** ** More on garment selection *)
(* ================================================================== *)

Module GarmentSelection.

Import JS WardrobePanel WardrobePanelProofs.

(** The message shown when an item could not be selected. *)
Definition loadFailedMessage : string :=
  "Failed to load item. This might be a CORS issue.".

(** X18. What the wardrobe grid selects. Whenever [handleGarmentClick]
    calls [onGarmentSelect], nothing is loading, the id of the clicked item is
    not among the active garment ids, the garment info passed is the clicked
    item itself, and the file passed is the one that [urlToFile] resolved to
    for the item's url and name. *)
Theorem handleGarmentClick_selects_clicked_item :
  forall (urlToFile : string -> string -> Outcome File)
         (onGarmentSelectThrows : File -> WardrobeItem -> bool)
         (props : WardrobePanelProps) (item : WardrobeItem)
         (garmentFile : File) (garmentInfo : WardrobeItem),
    In (onGarmentSelect garmentFile garmentInfo)
       (handleGarmentClick urlToFile onGarmentSelectThrows props item) ->
    isLoading props = false /\
    ~ In (id item) (activeGarmentIds props) /\
    garmentInfo = item /\
    urlToFile (url item) (name item) = Returned garmentFile.
Proof.
  intros urlToFile throws props item garmentFile garmentInfo.
  unfold handleGarmentClick.
  destruct (isLoading props); [intros [] |].
  destruct (includes (activeGarmentIds props) (id item)) eqn:Hactive; [intros [] |].
  cbn [orb]. intros [Hcall | Hcall]; [discriminate Hcall |].
  assert (Hnot : ~ In (id item) (activeGarmentIds props)).
  { intros Hin. apply includes_In in Hin. congruence. }
  destruct (urlToFile (url item) (name item)) as [file | e].
  - destruct Hcall as [Hcall | Hcall].
    + injection Hcall as <- <-. auto.
    + destruct (throws file item); [| destruct Hcall].
      destruct Hcall as [Hcall | []]. discriminate Hcall.
  - destruct Hcall as [Hcall | []]. discriminate Hcall.
Qed.

Lemma handleGarmentClick_selects_clicked_item_witness :
  isLoading {| activeGarmentIds := ["hat-3"]; isLoading := false |} = false /\
  ~ In (id shirt) (activeGarmentIds {| activeGarmentIds := ["hat-3"]; isLoading := false |}) /\
  shirt = shirt /\
  fetched (url shirt) (name shirt) = Returned {| JS.name := "Shirt"; type := "image/png" |}.
Proof.
  apply (handleGarmentClick_selects_clicked_item fetched (fun _ _ => false)
           {| activeGarmentIds := ["hat-3"]; isLoading := false |} shirt
           {| JS.name := "Shirt"; type := "image/png" |} shirt).
  right. left. reflexivity.
Defined.

(** X19. When the load-failed message is shown. For a click that passes the
    guard (nothing loading, item not active), [handleGarmentClick] first
    clears the error; it then sets the load-failed message exactly when
    fetching the image failed or [onGarmentSelect] itself threw, whatever was
    thrown; and when fetching failed it does not call [onGarmentSelect]. *)
Theorem handleGarmentClick_load_failed :
  forall (urlToFile : string -> string -> Outcome File)
         (onGarmentSelectThrows : File -> WardrobeItem -> bool)
         (props : WardrobePanelProps) (item : WardrobeItem),
    isLoading props = false ->
    ~ In (id item) (activeGarmentIds props) ->
    exists rest : list Call,
      handleGarmentClick urlToFile onGarmentSelectThrows props item = setError None :: rest /\
      (In (setError (Some loadFailedMessage)) rest <->
       (exists e, urlToFile (url item) (name item) = Thrown e) \/
       (exists file, urlToFile (url item) (name item) = Returned file /\
                     onGarmentSelectThrows file item = true)) /\
      ((exists e, urlToFile (url item) (name item) = Thrown e) ->
       rest = [setError (Some loadFailedMessage)]).
Proof.
  intros urlToFile throws props item Hload Hnot.
  unfold handleGarmentClick. rewrite Hload.
  replace (includes (activeGarmentIds props) (id item)) with false.
  2:{ symmetry. destruct (includes (activeGarmentIds props) (id item)) eqn:H; [| reflexivity].
      apply includes_In in H. contradiction. }
  cbn [orb]. eexists. split; [reflexivity |].
  destruct (urlToFile (url item) (name item)) as [file | e].
  - split.
    + split.
      * intros [H | H]; [discriminate H |].
        destruct (throws file item) eqn:Hthrows; [| destruct H].
        right. now exists file.
      * intros [[e H] | [file' [H Hthrows]]]; [discriminate H |].
        injection H as <-. rewrite Hthrows. right. left. reflexivity.
    + intros [e H]. discriminate H.
  - split.
    + split; [intros _; left; now exists e | intros _; left; reflexivity].
    + intros _. reflexivity.
Qed.

(** A fetch that is refused. *)
Definition refused (_ _ : string) : Outcome File := Thrown (Foreign "tainted canvas").

Lemma handleGarmentClick_load_failed_witness :
  exists rest : list Call,
    handleGarmentClick refused (fun _ _ => false)
      {| activeGarmentIds := ["hat-3"]; isLoading := false |} shirt = setError None :: rest /\
    (In (setError (Some loadFailedMessage)) rest <->
     (exists e, refused (url shirt) (name shirt) = Thrown e) \/
     (exists file, refused (url shirt) (name shirt) = Returned file /\
                   (fun _ _ => false) file shirt = true)) /\
    ((exists e, refused (url shirt) (name shirt) = Thrown e) ->
     rest = [setError (Some loadFailedMessage)]).
Proof.
  apply (handleGarmentClick_load_failed refused (fun _ _ => false)
           {| activeGarmentIds := ["hat-3"]; isLoading := false |} shirt).
  - reflexivity.
  - intros [H | []]. discriminate H.
Defined.

(** The id that [handleFileChange] gives to an uploaded garment. *)
Definition customId (now : Z) : string :=
  "custom-" ++ NilZero.string_of_int (Z.to_int now).

(** X20. What an upload selects. Whatever the change event, the upload
    handler makes at most one call and never clears the error (it makes no
    call [setError(null)]); when it calls [onGarmentSelect], the file passed
    is the first file of the event, its MIME type starts with [image/], and
    the garment info has the file's name, the object URL created for the file,
    and the id [custom-] followed by the time in decimal. *)
Theorem handleFileChange_selection :
  forall (now : Z) (createObjectURL : File -> string) (e : ChangeEvent),
    (List.length (handleFileChange now createObjectURL e) <= 1)%nat /\
    ~ In (setError None) (handleFileChange now createObjectURL e) /\
    forall (garmentFile : File) (garmentInfo : WardrobeItem),
      In (onGarmentSelect garmentFile garmentInfo) (handleFileChange now createObjectURL e) ->
      (exists others, files e = Some (garmentFile :: others)) /\
      startsWith (type garmentFile) "image/" = true /\
      garmentInfo = {| id := customId now;
                       name := JS.name garmentFile;
                       url := createObjectURL garmentFile |}.
Proof.
  intros now createObjectURL e. unfold handleFileChange.
  destruct (files e) as [[| file others] |].
  - repeat split; try (simpl; lia); intros; contradiction.
  - destruct (startsWith (type file) "image/") eqn:Himage; cbn [negb].
    + repeat split.
      * simpl. lia.
      * intros [H | []]. discriminate H.
      * destruct H as [H | []]. injection H as <- _. now exists others.
      * destruct H as [H | []]. now injection H as <- _.
      * destruct H as [H | []]. now injection H as <- <-.
    + repeat split; try (simpl; lia).
      * intros [H | []]. discriminate H.
      * destruct H as [H | []]. discriminate H.
      * destruct H as [H | []]. discriminate H.
      * destruct H as [H | []]. discriminate H.
  - repeat split; try (simpl; lia); intros; contradiction.
Qed.

(** X21. No file, no call. The upload handler does nothing (no error is
    set and nothing is selected) exactly when the change event has no file:
    a null file list or an empty one. With a file it always makes one call. *)
Theorem handleFileChange_without_file :
  forall (now : Z) (createObjectURL : File -> string) (e : ChangeEvent),
    handleFileChange now createObjectURL e = [] <->
    files e = None \/ files e = Some [].
Proof.
  intros now createObjectURL e. unfold handleFileChange.
  destruct (files e) as [[| file others] |].
  - split; [now right | reflexivity].
  - split.
    + destruct (negb (startsWith (type file) "image/")); discriminate.
    + intros [H | H]; discriminate H.
  - split; [now left | reflexivity].
Qed.

Lemma handleFileChange_without_file_witness :
  handleFileChange 1700000000000 (fun _ => "blob:1") {| files := Some [] |} = [] /\
  handleFileChange 1700000000000 (fun _ => "blob:1") {| files := None |} = [].
Proof.
  split.
  - apply handleFileChange_without_file. right. reflexivity.
  - apply handleFileChange_without_file. left. reflexivity.
Defined.

(** An upload of a JPEG. *)
Definition coatFile : File := {| JS.name := "coat.jpg"; type := "image/jpeg" |}.

Definition coatEvent : ChangeEvent := {| files := Some [coatFile] |}.

Lemma handleFileChange_selection_witness :
  (exists others, files coatEvent = Some (coatFile :: others)) /\
  startsWith (type coatFile) "image/" = true /\
  {| id := "custom-1700000000000"; name := "coat.jpg"; url := "blob:1" |}
  = {| id := customId 1700000000000;
       name := JS.name coatFile;
       url := (fun _ => "blob:1") coatFile |}.
Proof.
  apply (proj2 (proj2 (handleFileChange_selection 1700000000000 (fun _ => "blob:1")
                         coatEvent))).
  left. reflexivity.
Defined.

(** Printing an integer in decimal loses nothing. *)
Lemma decimal_inj (a b : Z) :
  NilZero.string_of_int (Z.to_int a) = NilZero.string_of_int (Z.to_int b) -> a = b.
Proof.
  assert (Hread : forall d : Decimal.int,
            exists d', NilZero.int_of_string (NilZero.string_of_int d) = Some d'
                       /\ Z.of_int d' = Z.of_int d).
  { intros d.
    destruct (Decimal.int_eq_dec d (Decimal.Pos Decimal.Nil)) as [-> | Hpos].
    { eexists. split; [apply NilZero.isi_posnil | reflexivity]. }
    destruct (Decimal.int_eq_dec d (Decimal.Neg Decimal.Nil)) as [-> | Hneg].
    { eexists. split; [apply NilZero.isi_negnil | reflexivity]. }
    exists d. split; [now apply NilZero.isi | reflexivity]. }
  intros Heq.
  destruct (Hread (Z.to_int a)) as [da [Ha Hza]].
  destruct (Hread (Z.to_int b)) as [db [Hb Hzb]].
  rewrite Heq, Hb in Ha. injection Ha as <-.
  rewrite DecimalZ.of_to in Hza, Hzb. congruence.
Qed.

(** X22. Custom ids and time. Two garments selected by the upload handler
    have the same id exactly when the two uploads were handled at the same
    [Date.now()]: uploads at different milliseconds never share an id, and
    uploads within one millisecond always do, whatever the files. *)
Theorem custom_ids_follow_time :
  forall (now now' : Z) (createObjectURL createObjectURL' : File -> string)
         (e e' : ChangeEvent) (garmentFile garmentFile' : File)
         (garmentInfo garmentInfo' : WardrobeItem),
    In (onGarmentSelect garmentFile garmentInfo) (handleFileChange now createObjectURL e) ->
    In (onGarmentSelect garmentFile' garmentInfo')
       (handleFileChange now' createObjectURL' e') ->
    (id garmentInfo = id garmentInfo' <-> now = now').
Proof.
  intros now now' createObjectURL createObjectURL' e e' f f' info info' Hin Hin'.
  assert (Hid : forall t cou ev g gi,
            In (onGarmentSelect g gi) (handleFileChange t cou ev) -> id gi = customId t).
  { intros t cou ev g gi. unfold handleFileChange.
    destruct (files ev) as [[| file others] |]; try (intros []).
    destruct (negb (startsWith (type file) "image/")).
    - intros [H | []]. discriminate H.
    - intros [H | []]. now injection H as _ <-. }
  rewrite (Hid _ _ _ _ _ Hin), (Hid _ _ _ _ _ Hin'). unfold customId. split.
  - intros H. injection H as H. now apply decimal_inj.
  - now intros ->.
Qed.

Lemma custom_ids_follow_time_witness :
  id {| id := "custom-1700000000000"; name := "coat.jpg"; url := "blob:1" |}
  = id {| id := "custom-1700000000000"; name := "coat.jpg"; url := "blob:2" |}
  <-> 1700000000000 = 1700000000000.
Proof.
  apply (custom_ids_follow_time 1700000000000 1700000000000
           (fun _ => "blob:1") (fun _ => "blob:2") coatEvent coatEvent coatFile coatFile);
    left; reflexivity.
Defined.

End GarmentSelection.
